(** * mapshader.sources: source lifecycle, transform pipeline and catalog builder

    A shallow embedding of [mapshader/sources.py].  Python objects become
    records, attribute assignment becomes explicit state passing in a small
    state-and-exception monad, and the collaborators that live outside the
    module (format loaders, the transform registry, [os.path], geopandas,
    xarray) are fields of a type class so that every definition can be
    evaluated once an instance is supplied. *)

From Stdlib Require Import ZArith Bool Ascii String List Lia DecimalString.
From stdpp Require Import base option list strings gmap.

Local Open Scope string_scope.

(** ** Python runtime: strings, exceptions, outcomes *)

Module Py.

(** [needle in hay] for two [str] operands. *)
Fixpoint str_contains (needle hay : string) : bool :=
  String.prefix needle hay ||
  match hay with
  | EmptyString => false
  | String _ hay' => str_contains needle hay'
  end.

(** [s.startswith(p)] *)
Definition startswith (s p : string) : bool := String.prefix p s.

(** Truthiness of a [str]: only the empty string is falsy. *)
Definition truthy_str (s : string) : bool :=
  match s with EmptyString => false | String _ _ => true end.

(** Truthiness of a value that is either [None] or a [str]. *)
Definition truthy (o : option string) : bool :=
  match o with None => false | Some s => truthy_str s end.

(** Truthiness of a value that is either [None] or a list. *)
Definition truthy_list {A} (o : option (list A)) : bool :=
  match o with None | Some [] => false | Some (_ :: _) => true end.

(** [o is None] *)
Definition is_none {A} (o : option A) : bool :=
  match o with None => true | Some _ => false end.

(** [o == s] where [o] is [None] or a [str]. *)
Definition eq_str (o : option string) (s : string) : bool :=
  match o with None => false | Some s' => String.eqb s' s end.

(** What an f-string prints for a value that is [None] or a [str]. *)
Definition format (o : option string) : string :=
  match o with None => "None" | Some s => s end.

Inductive exn : Type :=
| ValueError (msg : string)
| TypeError (msg : string)
| AttributeError (msg : string)
| KeyError (key : string)
| IndexError (msg : string)
| NotImplementedError
| OSError (msg : string)
| FileNotFoundError (msg : string)
| OtherError (cls msg : string).

(** [type(e).__name__] *)
Definition exn_class (e : exn) : string :=
  match e with
  | ValueError _ => "ValueError"
  | TypeError _ => "TypeError"
  | AttributeError _ => "AttributeError"
  | KeyError _ => "KeyError"
  | IndexError _ => "IndexError"
  | NotImplementedError => "NotImplementedError"
  | OSError _ => "OSError"
  | FileNotFoundError _ => "FileNotFoundError"
  | OtherError cls _ => cls
  end.

(** Outcome of evaluating an expression: a value or a raised exception. *)
Inductive res (A : Type) : Type :=
| Ret (a : A)
| Raise (e : exn).
Arguments Ret {A} a.
Arguments Raise {A} e.

Definition is_ret {A} (r : res A) : bool :=
  match r with Ret _ => true | Raise _ => false end.

#[global] Instance res_ret : MRet res := fun A a => Ret a.

#[global] Instance res_bind : MBind res := fun A B f r =>
  match r with
  | Ret a => f a
  | Raise e => Raise e
  end.

#[global] Instance res_fmap : FMap res := fun A B f r =>
  match r with
  | Ret a => Ret (f a)
  | Raise e => Raise e
  end.

(** Statements: state passing with exceptions.  The state reached when an
    exception leaves the statement is kept, because Python does not roll
    attribute assignments back. *)
Definition M (S A : Type) : Type := S -> res A * S.

#[global] Instance M_ret {S} : MRet (M S) := fun A a s => (Ret a, s).

#[global] Instance M_bind {S} : MBind (M S) := fun A B f m s =>
  match m s with
  | (Ret a, s') => f a s'
  | (Raise e, s') => (Raise e, s')
  end.

#[global] Instance M_fmap {S} : FMap (M S) := fun A B f m s =>
  match m s with
  | (Ret a, s') => (Ret (f a), s')
  | (Raise e, s') => (Raise e, s')
  end.

Definition raise {S A} (e : exn) : M S A := fun s => (Raise e, s).

(** An expression without side effects used as a statement. *)
Definition eval {S A} (r : res A) : M S A := fun s => (r, s).

Definition gets {S A} (f : S -> A) : M S A := fun s => (Ret (f s), s).

Definition modify {S} (f : S -> S) : M S unit := fun s => (Ret tt, f s).

(** [for x in l: body(x)] *)
Fixpoint for_each {S A} (l : list A) (body : A -> M S unit) : M S unit :=
  match l with
  | [] => mret tt
  | x :: l' => body x;; for_each l' body
  end.

(** [try: body finally: fin] *)
Definition try_finally {S A} (body : M S A) (fin : M S unit) : M S A :=
  fun s =>
    match body s with
    | (r, s') =>
        match fin s' with
        | (Ret _, s'') => (r, s'')
        | (Raise e, s'') => (Raise e, s'')
        end
    end.

(** Run a statement written against a component of the state. *)
Definition zoom {S T A} (proj : S -> T) (inj : T -> S -> S) (m : M T A) : M S A :=
  fun s => match m (proj s) with (r, t') => (r, inj t' s) end.

End Py.
Export Py.

(** ** The process environment a source can observe *)

Record World : Type := {
  cwd : string;             (* os.getcwd() *)
  stdout : list string      (* lines printed so far *)
}.

Definition set_cwd (d : string) (w : World) : World :=
  {| cwd := d; stdout := stdout w |}.

(** [print(line, file=sys.stdout)] *)
Definition print (line : string) : M World unit :=
  modify (fun w => {| cwd := cwd w; stdout := stdout w ++ [line] |}).

Definition os_getcwd : M World string := gets cwd.

(** ** Values handled by a source *)

(** The types the module treats as opaque: data frames and arrays, the keyword
    arguments of a transform, floating-point numbers and colour objects. *)
Class PyTypes : Type := {
  DataObj : Type;
  Kwargs : Type;
  PyFloat : Type;
  Opaque : Type
}.

(** Key of an overview level: the demo catalog uses strings, the docstrings
    integers. *)
Inductive level : Type :=
| LevelStr (s : string)
| LevelInt (z : Z).

Definition level_eqb (a b : level) : bool :=
  match a, b with
  | LevelStr s, LevelStr s' => String.eqb s s'
  | LevelInt z, LevelInt z' => Z.eqb z z'
  | _, _ => false
  end.

Section Values.
Context `{PyTypes}.

(** What [self.data], [self.overviews] and the result of a transform can be:
    [None], a data object, or a [dict] from level keys to such values (kept in
    insertion order, as Python dicts are). *)
#[warnings="-register-all"]
Inductive pyval : Type :=
| PNone
| PObj (d : DataObj)
| PDict (m : list (level * pyval)).

(** A registered transform: [func(data, **args)]. *)
Definition callable : Type := pyval -> Kwargs -> res pyval.

(** (xmin, ymin, xmax, ymax) *)
Definition Extent : Type := (PyFloat * PyFloat * PyFloat * PyFloat)%type.

(** One entry of [transforms]: [{'name': ..., 'args': {...}}]; ['args'] may be
    missing. *)
Record TransformStep : Type := {
  t_name : string;
  t_args : option Kwargs
}.

(** One entry of [legend]; either key may be missing. *)
Inductive legval : Type :=
| LegScalar (v : Opaque)
| LegSeq (vs : list Opaque).

Record LegendEntry : Type := {
  leg_color : option Opaque;
  leg_value : option legval
}.

(** [cmap]: the colormap passed in, or the dict built from a raster legend
    (recorded as its key/colour assignments in order; the dict keeps the last
    colour assigned to a key). *)
Inductive cmapval : Type :=
| CmapGiven (c : Opaque)
| CmapLegend (assignments : list (legval * Opaque)).

(** [span]: a string such as ['min/max'], or an explicit range. *)
Inductive spanval : Type :=
| SpanName (s : string)
| SpanRange (lo hi : Z).

Definition span_is (o : option spanval) (s : string) : bool :=
  match o with
  | Some (SpanName s') => String.eqb s' s
  | _ => false
  end.

(** ** Dictionaries on a [dict] of overviews *)

(** [self.overviews.items()]; only a dict has the method. *)
Definition items (v : pyval) : res (list (level * pyval)) :=
  match v with
  | PDict m => Ret m
  | PNone => Raise (AttributeError "'NoneType' object has no attribute 'items'")
  | PObj _ => Raise (AttributeError "object has no attribute 'items'")
  end.

(** [m[k] = x] on an insertion-ordered dict: an existing key keeps its place. *)
Fixpoint assoc_set (m : list (level * pyval)) (k : level) (x : pyval)
  : list (level * pyval) :=
  match m with
  | [] => [(k, x)]
  | (k', v) :: m' =>
      if level_eqb k' k then (k', x) :: m' else (k', v) :: assoc_set m' k x
  end.

(** [v[k] = x] *)
Definition setitem (v : pyval) (k : level) (x : pyval) : res pyval :=
  match v with
  | PDict m => Ret (PDict (assoc_set m k x))
  | PNone => Raise (TypeError "'NoneType' object does not support item assignment")
  | PObj _ => Raise (TypeError "object does not support item assignment")
  end.

End Values.

(** ** Collaborators outside the module *)

Class Externals `{PyTypes} : Type := {
  (* mapshader.colors *)
  colors_viridis : Opaque;
  (* mapshader.io *)
  load_raster : string -> res DataObj;
  load_vector : string -> res DataObj;
  (* mapshader.transforms *)
  get_transform_by_name : string -> res callable;
  (* the literal {} *)
  empty_args : Kwargs;
  (* os, os.path: abspath takes the working directory it resolves against *)
  path_abspath : string -> string -> string;
  path_dirname : string -> string;
  path_expanduser : string -> string;
  path_isabs : string -> bool;
  dir_exists : string -> bool;
  (* isinstance(data, gpd.GeoDataFrame), isinstance(data, spatialpandas.GeoDataFrame) *)
  is_GeoDataFrame : DataObj -> bool;
  is_spatialpandas : DataObj -> bool;
  (* data[fields], data[geometry_field] *)
  getitem_fields : DataObj -> list string -> res DataObj;
  getitem_column : DataObj -> string -> res DataObj;
  (* data.to_geopandas(), series.total_bounds *)
  to_geopandas : DataObj -> res DataObj;
  total_bounds : DataObj -> res Extent;
  (* data.coords[axis].min().compute().item(), and max *)
  coords_min : DataObj -> string -> res PyFloat;
  coords_max : DataObj -> string -> res PyFloat;
  (* the literal 20037508.3427892 and unary minus *)
  float_20037508_3427892 : PyFloat;
  float_neg : PyFloat -> PyFloat
}.

(** ** Source descriptions: keyword dictionaries *)

(** The keys a source dictionary may carry: the keyword parameters of
    [MapSource.__init__]. *)
Inductive kwkey : Type :=
| K_name | K_description | K_filepath | K_legend | K_config_path | K_data
| K_geometry_type | K_key | K_text | K_fields | K_span | K_route
| K_geometry_field | K_xfield | K_yfield | K_zfield | K_agg_func
| K_raster_interpolate | K_shade_how | K_cmap | K_color_key | K_dynspread
| K_extras | K_raster_padding | K_service_types | K_full_extent
| K_default_extent | K_default_height | K_default_width | K_overviews
| K_transforms | K_attrs | K_preload.

Definition kwkey_eq_dec (a b : kwkey) : {a = b} + {a <> b}.
Proof. decide equality. Defined.

Section DataModel.
Context `{PyTypes}.

(** The type of the value stored under each key. *)
Definition kwtype (k : kwkey) : Type :=
  match k with
  | K_legend => list LegendEntry
  | K_data => DataObj
  | K_fields | K_extras | K_service_types => list string
  | K_span => spanval
  | K_cmap | K_color_key | K_attrs => Opaque
  | K_dynspread | K_raster_padding | K_default_height | K_default_width => Z
  | K_full_extent => Extent
  | K_default_extent => list PyFloat
  | K_overviews => list (level * pyval)
  | K_transforms => list TransformStep
  | K_preload => bool
  | _ => string
  end.

(** A source dictionary, as read from a configuration file or built by the
    demo functions, and also the [**obj] passed to the constructor.  A key is
    missing, or present with the value [None], or present with a value of its
    type.  [d k] is [d.get(k)]: the value under the key, and [None] both for a
    missing key and for a key that holds [None]; it is also what [**d] binds
    to a parameter whose default is [None].  [dict_none d k] tells the two
    apart: the key is present and holds [None] (it is read only where [d k]
    is [None]).  For the parameters whose default is not [None]
    ([geometry_field], [xfield], [yfield], [raster_interpolate], [shade_how],
    [cmap], [default_height], [default_width], [preload]) the constructor is
    modelled on dictionaries that lack the key or hold a value under it. *)
Record SourceDict : Type := {
  dict_get :> forall k : kwkey, option (kwtype k);
  dict_none : kwkey -> bool
}.

(** [dict()] *)
Definition dict_empty : SourceDict :=
  {| dict_get := fun _ => None; dict_none := fun _ => false |}.

(** [k in d] *)
Definition dict_has (d : SourceDict) (k : kwkey) : bool :=
  match d k with
  | Some _ => true
  | None => dict_none d k
  end.

(** [d[k] = v], where [v] may be [None]: the key is present afterwards. *)
Definition dict_set (k : kwkey) (v : option (kwtype k)) (d : SourceDict) : SourceDict :=
  {| dict_get := fun k' =>
       match kwkey_eq_dec k k' with
       | left e => eq_rect k (fun x => option (kwtype x)) v k' e
       | right _ => d k'
       end;
     dict_none := fun k' =>
       if kwkey_eq_dec k k' then is_none v else dict_none d k' |}.

(** [d[k]], which raises [KeyError] on a missing key and returns what the key
    holds otherwise, [None] included. *)
Definition dict_getitem (d : SourceDict) (k : kwkey) (pyname : string)
  : res (option (kwtype k)) :=
  if dict_has d k then Ret (d k) else Raise (KeyError pyname).

(** ** Source objects *)

Inductive SourceClass : Type :=
| MapSourceClass
| RasterSourceClass
| VectorSourceClass.

(** The attributes [__init__] assigns and no method reassigns. *)
Record SourceAttrs : Type := {
  name : option string;
  description : option string;
  filepath : option string;
  config_path : option string;
  geometry_type : option string;
  key : option string;
  text : option string;
  legend : option (list LegendEntry);
  fields : option (list string);
  span : option spanval;
  route : option string;
  xfield : string;
  raster_padding : Z;
  yfield : string;
  zfield : option string;
  agg_func : option string;
  raster_agg_func : string;
  shade_how : string;
  cmap : cmapval;
  color_key : option Opaque;
  dynspread : option Z;
  extras : list string;
  service_types : list string;
  transforms : list TransformStep;
  default_extent : list PyFloat;
  default_width : Z;
  default_height : Z;
  preload : bool;
  geometry_field : string
}.

(** A [MapSource] instance: its class, the attributes above, and the three
    attributes that [load] and the transform pipeline assign. *)
Record MapSource : Type := {
  klass : SourceClass;
  attrs :> SourceAttrs;
  overviews : pyval;
  is_loaded : bool;
  data : pyval
}.

(** [self.data = v] *)
Definition set_data (v : pyval) (self : MapSource) : MapSource :=
  {| klass := klass self; attrs := attrs self; overviews := overviews self;
     is_loaded := is_loaded self; data := v |}.

(** [self.overviews = v] *)
Definition set_overviews (v : pyval) (self : MapSource) : MapSource :=
  {| klass := klass self; attrs := attrs self; overviews := v;
     is_loaded := is_loaded self; data := data self |}.

(** [self.is_loaded = b] *)
Definition set_is_loaded (b : bool) (self : MapSource) : MapSource :=
  {| klass := klass self; attrs := attrs self; overviews := overviews self;
     is_loaded := b; data := data self |}.

(** A method body runs against the instance and the process environment. *)
Definition ObjState : Type := (MapSource * World)%type.

Definition get_self : M ObjState MapSource := gets fst.

Definition modify_self (f : MapSource -> MapSource) : M ObjState unit :=
  modify (fun st => (f (fst st), snd st)).

Definition in_world {A} (m : M World A) : M ObjState A :=
  zoom snd (fun w st => (fst st, w)) m.

(** Call a method on [self] from code that only threads the environment;
    the call yields the instance as the method left it. *)
Definition call_method {A} (m : M ObjState A) (self : MapSource) : M World MapSource :=
  fun w =>
    match m (self, w) with
    | (Ret _, (self', w')) => (Ret self', w')
    | (Raise e, (_, w')) => (Raise e, w')
    end.

End DataModel.

(** ** class MapSource *)

Section Lifecycle.
Context `{Externals}.

(** [os.chdir(d)]: a directory that does not exist gives [FileNotFoundError]
    (a path that exists and cannot be entered for another reason is not
    distinguished from it). *)
Definition os_chdir (d : string) : M World unit :=
  if dir_exists d then modify (set_cwd d)
  else raise (FileNotFoundError ("[Errno 2] No such file or directory: '" ++ d ++ "'")).

(** [path.abspath(path.expanduser(self.filepath))] in the current directory. *)
Definition abspath_of_filepath (self : MapSource) : M World string :=
  match filepath self with
  | None => raise (TypeError "expected str, bytes or os.PathLike object, not NoneType")
  | Some fp => here ← os_getcwd; mret (path_abspath here (path_expanduser fp))
  end.

(** The [load_func] property: the base class has none. *)
Definition load_func (self : MapSource) : res (string -> res DataObj) :=
  match klass self with
  | MapSourceClass => Raise NotImplementedError
  | RasterSourceClass => Ret load_raster
  | VectorSourceClass => Ret load_vector
  end.

(** The branch of [load] taken when [self.config_path] is truthy: resolve the
    file against the directory of the configuration file. *)
Definition data_path_from_config (self : MapSource) (cfg : string) : M World string :=
  ogcwd ← os_getcwd;
  let config_dir := path_abspath ogcwd (path_dirname cfg) in
  os_chdir config_dir;;
  try_finally (abspath_of_filepath self) (os_chdir ogcwd).

(** The remaining branches of [load]'s path resolution. *)
Definition data_path_from_filepath (self : MapSource) : M World string :=
  match filepath self with
  | None => raise (AttributeError "'NoneType' object has no attribute 'startswith'")
  | Some fp =>
      if startswith fp "zip" then
        print "Zipfile Path";; mret fp
      else if negb (path_isabs fp) then
        print "Not Absolute";; abspath_of_filepath self
      else
        print "Using Given Filepath unmodified: config{self.config_file}";; mret fp
  end.

Definition resolve_data_path (self : MapSource) : M World string :=
  if truthy (config_path self)
  then data_path_from_config self (default EmptyString (config_path self))
  else data_path_from_filepath self.

(** [data[self.fields]] *)
Definition project_fields (data : pyval) (flds : list string) : res pyval :=
  match data with
  | PObj d => PObj <$> getitem_fields d flds
  | PNone => Raise (TypeError "'NoneType' object is not subscriptable")
  | PDict _ => Raise (TypeError "unhashable type: 'list'")
  end.

(** One pass of the loop over [self.overviews.items()]. *)
Definition transform_overview (func : callable) (args : Kwargs)
    (entry : level * pyval) : M ObjState unit :=
  let '(level, overview_data) := entry in
  v ← eval (func overview_data args);
  self ← get_self;
  ovs ← eval (setitem (overviews self) level v);
  modify_self (set_overviews ovs).

(** The body of the loop of [_apply_transforms].  The inner loop walks the
    entries [items()] shows when it starts; each key is assigned once, at its
    own pass, so Python's live view hands out the same values. *)
Definition apply_transform (trans : TransformStep) : M ObjState unit :=
  let transform_name := t_name trans in
  in_world (print (String "009" "Applying " ++ transform_name));;
  func ← eval (get_transform_by_name transform_name);
  let args := default empty_args (t_args trans) in
  if str_contains "overviews" transform_name then
    self ← get_self;
    ovs ← eval (func (data self) args);
    modify_self (set_overviews ovs)
  else
    self ← get_self;
    d ← eval (func (data self) args);
    modify_self (set_data d);;
    self ← get_self;
    entries ← eval (items (overviews self));
    for_each entries (transform_overview func args).

Definition _apply_transforms : M ObjState unit :=
  self ← get_self;
  in_world (print "# ----------------------");;
  in_world (print ("# APPLYING TRANSFORMS " ++ format (name self)));;
  in_world (print "# ----------------------");;
  for_each (transforms (self : MapSource)) apply_transform.

Definition _finish_load : M ObjState unit :=
  self ← get_self;
  if is_loaded self then mret tt
  else
    _apply_transforms;;
    modify_self (set_is_loaded true).

(** [load] returns [self]: the instance is the state the statement leaves. *)
Definition load : M ObjState unit :=
  self ← get_self;
  if is_loaded self then mret tt
  else
    d ← match data self with
        | PNone =>
            data_path ← in_world (resolve_data_path self);
            loader ← eval (load_func self);
            PObj <$> eval (loader data_path)
        | d => mret d
        end;
    d ← (if truthy_list (fields self)
         then eval (project_fields d (default [] (fields self)))
         else mret d);
    modify_self (set_data d);;
    _finish_load.

(** *** The constructor *)

(** [fields] after the first statement of [__init__]. *)
Definition init_fields (kw : SourceDict) : option (list string) :=
  match kw K_fields, kw K_data with
  | None, Some d =>
      if is_GeoDataFrame d then
        Some (default "geometry" (kw K_geometry_field)
              :: (if truthy (kw K_zfield) then [default EmptyString (kw K_zfield)] else []))
      else None
  | flds, _ => flds
  end.

(** The [for leg in legend] loop that fills the new [cmap]. *)
Fixpoint legend_cmap (legend : list LegendEntry) (acc : list (legval * Opaque))
  : res (list (legval * Opaque)) :=
  match legend with
  | [] => Ret acc
  | leg :: legend' =>
      match leg_color leg with
      | None => Raise (KeyError "color")
      | Some cor =>
          match leg_value leg with
          | None => Raise (KeyError "value")
          | Some val => legend_cmap legend' (acc ++ [(val, cor)])
          end
      end
  end.

(** [cmap] after the legend block. *)
Definition init_cmap (kw : SourceDict) : res cmapval :=
  let given := CmapGiven (default colors_viridis (kw K_cmap)) in
  match kw K_legend with
  | Some legend =>
      if eq_str (kw K_geometry_type) "raster" then
        match legend with
        | [] => Raise (IndexError "list index out of range")
        | first :: _ =>
            match leg_value first with
            | Some _ => CmapLegend <$> legend_cmap legend []
            | None => Ret given
            end
        end
      else Ret given
  | None => Ret given
  end.

(** The test that guards the [ValueError] of the constructor. *)
Definition span_needs_zfield (kw : SourceDict) : bool :=
  span_is (kw K_span) "min/max"
  && is_none (kw K_zfield)
  && negb (eq_str (kw K_geometry_type) "raster").

(** [bool(len([t for t in transforms if 'overviews' in t['name']]))] *)
Definition contains_overviews (transforms : list TransformStep) : bool :=
  negb (length (List.filter (fun t => str_contains "overviews" (t_name t)) transforms) =? 0)%nat.

(** [__init__] up to and including [self.data = data].  The instance holds
    its overviews by value.  In Python [self.overviews] is the very dict the
    caller passed (when one was passed), so what a data transform assigns
    into [self.overviews] before any overview builder has replaced it also
    shows in the caller's dict and in other sources built around it; the
    statements below are about the instance and leave the caller's
    ['overviews'] entry aside. *)
Definition init_attributes (cls : SourceClass) (kw : SourceDict) : res MapSource :=
  let flds := init_fields kw in
  if span_needs_zfield kw then
    Raise (ValueError "You must include a zfield for min/max scan calculation")
  else
    cm ← init_cmap kw;
    let val := float_20037508_3427892 in
    Ret {| klass := cls;
           attrs := {|
             name := kw K_name;
             description := kw K_description;
             filepath := kw K_filepath;
             config_path := kw K_config_path;
             geometry_type := kw K_geometry_type;
             key := kw K_key;
             text := kw K_text;
             legend := kw K_legend;
             fields := flds;
             span := kw K_span;
             route := kw K_route;
             xfield := default "geometry" (kw K_xfield);
             raster_padding := 0;
             yfield := default "geometry" (kw K_yfield);
             zfield := kw K_zfield;
             agg_func := kw K_agg_func;
             raster_agg_func := default "linear" (kw K_raster_interpolate);
             shade_how := default "linear" (kw K_shade_how);
             cmap := cm;
             color_key := kw K_color_key;
             dynspread := kw K_dynspread;
             extras := default [] (kw K_extras);
             service_types := default ["tile"; "image"; "wms"; "geojson"] (kw K_service_types);
             transforms := default [] (kw K_transforms);
             default_extent :=
               default [float_neg val; float_neg val; val; val] (kw K_default_extent);
             default_width := default 256%Z (kw K_default_width);
             default_height := default 256%Z (kw K_default_height);
             preload := default false (kw K_preload);
             geometry_field := default "geometry" (kw K_geometry_field)
           |};
           overviews := PDict (default [] (kw K_overviews));
           is_loaded := false;
           data := match kw K_data with Some d => PObj d | None => PNone end |}.

Definition __init__ (cls : SourceClass) (kw : SourceDict) : M World MapSource :=
  self ← eval (init_attributes cls kw);
  if preload (self : MapSource) || contains_overviews (transforms self)
  then call_method load self
  else mret self.

(** [MapSource.from_obj] *)
Definition from_obj (obj : SourceDict) : M World MapSource :=
  let has_to_vector :=
    if truthy_list (obj K_transforms) then
      let n := "raster_to_categorical_points" in
      length (List.filter (fun t => String.eqb (t_name t) n) (default [] (obj K_transforms)))
    else 0%nat in
  geometry_type ← eval (dict_getitem obj K_geometry_type "geometry_type");
  if eq_str geometry_type "raster" || negb (has_to_vector =? 0)%nat
  then __init__ RasterSourceClass obj
  else __init__ VectorSourceClass obj.

End Lifecycle.

(** ** class RasterSource, class VectorSource: the [full_extent] property *)

Section FullExtent.
Context `{Externals}.

(** [m[k]] on a dict of overviews. *)
Fixpoint assoc_get (m : list (level * pyval)) (k : level) : option pyval :=
  match m with
  | [] => None
  | (k', v) :: m' => if level_eqb k' k then Some v else assoc_get m' k
  end.

(** [RasterSource.full_extent], the decorated function. *)
Definition raster_full_extent (self : MapSource) : res Extent :=
  match data self with
  | PObj d =>
      xmin ← coords_min d "x";
      ymin ← coords_min d "y";
      xmax ← coords_max d "x";
      ymax ← coords_max d "y";
      mret (xmin, ymin, xmax, ymax)
  | PNone => Raise (AttributeError "'NoneType' object has no attribute 'coords'")
  | PDict _ => Raise (AttributeError "'dict' object has no attribute 'coords'")
  end.

(** [VectorSource.full_extent], the decorated function. *)
Definition vector_full_extent (self : MapSource) : res Extent :=
  match data self with
  | PObj d =>
      if is_spatialpandas d then
        gdf ← to_geopandas d;
        col ← getitem_column gdf (geometry_field self);
        total_bounds col
      else
        col ← getitem_column d (geometry_field self);
        total_bounds col
  | PNone => Raise (TypeError "'NoneType' object is not subscriptable")
  | PDict m =>
      match assoc_get m (LevelStr (geometry_field self)) with
      | Some (PObj col) => total_bounds col
      | Some _ => Raise (AttributeError "object has no attribute 'total_bounds'")
      | None => Raise (KeyError (geometry_field self))
      end
  end.

(** The function behind the property, by class; the base class defines only
    [get_full_extent]. *)
Definition compute_full_extent (self : MapSource) : res Extent :=
  match klass self with
  | RasterSourceClass => raster_full_extent self
  | VectorSourceClass => vector_full_extent self
  | MapSourceClass =>
      Raise (AttributeError "'MapSource' object has no attribute 'full_extent'")
  end.

(** [get_full_extent], declared on the base class and never overridden. *)
Definition get_full_extent (self : MapSource) : res Extent :=
  Raise NotImplementedError.

(** [self.full_extent]: the property under [lru_cache].  The state is the
    cache entry kept for this instance: [None] before the first call that
    returned (and again after an eviction), then the value that call
    returned.  A call that raises stores nothing. *)
Definition full_extent (self : MapSource) : M (option Extent) Extent :=
  fun memo =>
    match memo with
    | Some e => (Ret e, memo)
    | None =>
        match compute_full_extent self with
        | Ret e => (Ret e, Some e)
        | Raise x => (Raise x, None)
        end
    end.

End FullExtent.

(** ** class MapService and its subclasses *)

Inductive ServiceClass : Type :=
| TileService
| ImageService
| WMSService
| GeoJSONService.

Section Services.
Context `{Externals}.

Record MapService : Type := {
  service_class : ServiceClass;
  source : MapSource;
  renderers : list Opaque
}.

(** The [service_type] property of each subclass. *)
Definition service_type (svc : MapService) : string :=
  match service_class svc with
  | TileService => "tile"
  | ImageService => "image"
  | WMSService => "wms"
  | GeoJSONService => "geojson"
  end.

(** The [key] property: [f'{self.source.key}-{self.service_type}'] *)
Definition service_key (svc : MapService) : string :=
  format (key (source svc)) ++ "-" ++ service_type svc.

(** The [service_url] property of each subclass. *)
Definition service_url (svc : MapService) : string :=
  match service_class svc with
  | TileService => "/" ++ service_key svc ++ "/tile/<z>/<x>/<y>"
  | ImageService =>
      "/" ++ service_key svc ++ "/image" ++ "/<xmin>/<ymin>/<xmax>/<ymax>" ++ "/<width>/<height>"
  | WMSService => "/" ++ service_key svc ++ "/wms"
  | GeoJSONService => "/" ++ service_key svc ++ "/geojson"
  end.

(** ** parse_sources *)

(** The [service_classes] table, subscripted. *)
Definition service_classes (service_type : string) : res ServiceClass :=
  if String.eqb service_type "tile" then Ret TileService
  else if String.eqb service_type "wms" then Ret WMSService
  else if String.eqb service_type "image" then Ret ImageService
  else if String.eqb service_type "geojson" then Ret GeoJSONService
  else Raise (KeyError service_type).

(** The generator runs against the source dictionaries it was handed (objects
    on the heap, named by address, so that a list may hold the same dictionary
    twice and an assignment is seen through every reference), the process
    environment, and the services yielded so far.  The model drives the
    generator to its end, or to the exception that stops it, without the
    consumer touching the dictionaries in between. *)
Record Catalog : Type := {
  heap : gmap nat SourceDict;
  world : World;
  yielded : list MapService
}.

Definition in_catalog_world {A} (m : M World A) : M Catalog A :=
  zoom world (fun w c => {| heap := heap c; world := w; yielded := yielded c |}) m.

(** Follow a reference to a source dictionary. *)
Definition deref (source : nat) : M Catalog SourceDict :=
  fun c =>
    match heap c !! source with
    | Some obj => (Ret obj, c)
    | None => (Raise (OtherError "ReferenceError" "no object at this address"), c)
    end.

(** [source[k] = v] *)
Definition heap_setitem (source : nat) (k : kwkey) (v : option (kwtype k)) : M Catalog unit :=
  obj ← deref source;
  modify (fun c => {| heap := <[source := dict_set k v obj]> (heap c);
                      world := world c; yielded := yielded c |}).

(** [yield svc] *)
Definition yield (svc : MapService) : M Catalog unit :=
  modify (fun c => {| heap := heap c; world := world c; yielded := yielded c ++ [svc] |}).

(** [contains and contains not in source.get('key')] *)
Definition skip_service (contains : option string) (obj : SourceDict) : res bool :=
  if truthy contains then
    match obj K_key with
    | Some k => Ret (negb (str_contains (default EmptyString contains) k))
    | None => Raise (TypeError "argument of type 'NoneType' is not iterable")
    end
  else Ret false.

(** The body of the inner loop. *)
Definition parse_service (config_path contains : option string)
    (source : nat) (source_obj : MapSource) (service_type : string) : M Catalog unit :=
  heap_setitem source K_config_path config_path;;
  obj ← deref source;
  skip ← eval (skip_service contains obj);
  if (skip : bool) then mret tt
  else
    ServiceKlass ← eval (service_classes service_type);
    yield {| service_class := ServiceKlass; source := source_obj; renderers := [] |}.

(** The body of the outer loop. *)
Definition parse_source (config_path contains : option string) (source : nat)
  : M Catalog unit :=
  obj ← deref source;
  source_obj ← in_catalog_world (from_obj obj);
  obj ← deref source;
  service_types ← eval (dict_getitem obj K_service_types "service_types");
  match service_types with
  | Some service_types =>
      for_each service_types (parse_service config_path contains source source_obj)
  | None => raise (TypeError "'NoneType' object is not iterable")
  end.

Definition parse_sources (source_objs : list nat) (config_path contains : option string)
  : M Catalog unit :=
  for_each source_objs (parse_source config_path contains).

End Services.

(** ** The remaining properties of a service *)

(** How an f-string prints a float is left to the interpreter. *)
Class Printing `{PyTypes} : Type := {
  format_float : PyFloat -> string
}.

(** How an f-string prints an [int]. *)
Definition format_int (z : Z) : string := NilZero.string_of_int (Z.to_int z).

Section ServiceUrls.
Context `{Externals} `{!Printing}.

(** The [name] property: [f'{self.source.name} {self.service_type}'] *)
Definition service_name (svc : MapService) : string :=
  format (name (source svc)) ++ " " ++ service_type svc.

(** The [legend_name] property. *)
Definition legend_name (svc : MapService) : string :=
  service_name svc ++ "-legend".

(** The [service_page_url] property. *)
Definition service_page_url (svc : MapService) : string :=
  "/" ++ service_key svc.

(** The [legend_url] property. *)
Definition legend_url (svc : MapService) : string :=
  "/" ++ service_key svc ++ "/legend".

(** The [service_page_name] property:
    [f'/{self.key}-{self.service_type}'] *)
Definition service_page_name (svc : MapService) : string :=
  "/" ++ service_key svc ++ "-" ++ service_type svc.

(** The [client_url] property of each subclass; for WMS the property is read
    with its defaults [width=256, height=256]. *)
Definition client_url (svc : MapService) : string :=
  match service_class svc with
  | TileService => "/" ++ service_key svc ++ "/tile/{z}/{x}/{y}"
  | ImageService =>
      "/" ++ service_key svc ++ "/image/{XMIN}/{YMIN}/{XMAX}/{YMAX}/{width}/{height}"
  | WMSService =>
      ("/" ++ service_key svc) ++ "?bbox={XMIN},{YMIN},{XMAX},{YMAX}"
        ++ ("&width=" ++ format_int 256 ++ "&height=" ++ format_int 256)
  | GeoJSONService => "/" ++ service_key svc ++ "/geojson"
  end.

(** [self.default_extent[i]] *)
Definition extent_item (svc : MapService) (i : nat) : res PyFloat :=
  match nth_error (default_extent (source svc)) i with
  | Some x => Ret x
  | None => Raise (IndexError "list index out of range")
  end.

(** The [default_url] property of each subclass. *)
Definition default_url (svc : MapService) : res string :=
  match service_class svc with
  | TileService => Ret ("/" ++ service_key svc ++ "/tile/0/0/0")
  | ImageService =>
      xmin ← extent_item svc 0;
      ymin ← extent_item svc 1;
      xmax ← extent_item svc 2;
      ymax ← extent_item svc 3;
      let width := default_width (source svc) in
      let height := default_height (source svc) in
      mret ("/" ++ service_key svc ++ "/image/" ++ format_float xmin ++ "/"
              ++ format_float ymin ++ "/" ++ format_float xmax ++ "/"
              ++ format_float ymax ++ "/" ++ format_int width ++ "/" ++ format_int height)
  | WMSService =>
      xmin ← extent_item svc 0;
      ymin ← extent_item svc 1;
      xmax ← extent_item svc 2;
      ymax ← extent_item svc 3;
      let width := default_width (source svc) in
      let height := default_height (source svc) in
      mret ("/" ++ service_key svc ++ "?bbox=" ++ format_float xmin ++ ","
              ++ format_float ymin ++ "," ++ format_float xmax ++ ","
              ++ format_float ymax ++ "&width=" ++ format_int width
              ++ "&height=" ++ format_int height)
  | GeoJSONService => Ret ("/" ++ service_key svc ++ "/geojson")
  end.

End ServiceUrls.

(** ** A small instance to run the definitions on *)

Module Demo.

(** Data objects are labels that record what was done to them; keyword
    arguments are association lists; numbers are integers. *)
Definition demo_types : PyTypes := {|
  DataObj := string;
  Kwargs := list (string * string);
  PyFloat := Z;
  Opaque := string
|}.

#[local] Existing Instance demo_types.

Definition tag (suffix : string) : callable :=
  fun v _ =>
    match v with
    | PObj d => Ret (PObj (d ++ suffix))
    | _ => Raise (TypeError "expected a data object")
    end.

Definition build_overviews : callable :=
  fun v _ =>
    match v with
    | PObj d => Ret (PDict [(LevelStr "0", PObj (d ++ "@0")); (LevelStr "1", PObj (d ++ "@1"))])
    | _ => Raise (TypeError "expected a data object")
    end.

Definition registry (n : string) : res callable :=
  if String.eqb n "reproject_vector" then Ret (tag "|3857")
  else if String.eqb n "to_spatialpandas" then Ret (tag "|sp")
  else if String.eqb n "select_by_attributes" then Ret (tag "|sel")
  else if String.eqb n "build_vector_overviews" then Ret build_overviews
  else Raise (KeyError n).

Definition demo_externals : Externals := {|
  colors_viridis := "viridis";
  load_raster := fun p => Ret ("raster:" ++ p);
  load_vector := fun p => Ret ("vector:" ++ p);
  get_transform_by_name := registry;
  empty_args := [];
  path_abspath := fun here p => if String.prefix "/" p then p else here ++ "/" ++ p;
  path_dirname := fun p => p ++ "/..";
  path_expanduser := fun p => p;
  path_isabs := String.prefix "/";
  dir_exists := fun _ => true;
  is_GeoDataFrame := String.prefix "gdf";
  is_spatialpandas := fun d => str_contains "|sp" d;
  getitem_fields := fun d _ => Ret d;
  getitem_column := fun d c => Ret (d ++ "." ++ c);
  to_geopandas := fun d => Ret d;
  total_bounds := fun _ => Ret (-20, -10, 20, 10)%Z;
  coords_min := fun _ axis => Ret (if String.eqb axis "x" then -180 else -90)%Z;
  coords_max := fun _ axis => Ret (if String.eqb axis "x" then 180 else 90)%Z;
  float_20037508_3427892 := 20037508%Z;
  float_neg := Z.opp
|}.

#[local] Existing Instance demo_externals.

Definition demo_printing : Printing := {|
  format_float := fun z => format_int z
|}.

Definition world0 : World := {| cwd := "/srv"; stdout := [] |}.

(** [nybb_source()], with the path geopandas reports for its ['nybb'] sample. *)
Definition nybb_source : SourceDict :=
  let reproject_transform :=
    {| t_name := "reproject_vector"; t_args := Some [("epsg", "3857")] |} in
  let sp_transform :=
    {| t_name := "to_spatialpandas"; t_args := Some [("geometry_field", "geometry")] |} in
  let transforms := [reproject_transform; sp_transform] in
  dict_set K_service_types (Some ["tile"; "wms"; "image"; "geojson"])
  (dict_set K_transforms (Some transforms)
  (dict_set K_filepath (Some "/data/nybb.zip")
  (dict_set K_zfield (Some "BoroCode")
  (dict_set K_yfield (Some "geometry")
  (dict_set K_xfield (Some "geometry")
  (dict_set K_raster_interpolate (Some "linear")
  (dict_set K_dynspread None
  (dict_set K_span (Some (SpanName "min/max"))
  (dict_set K_shade_how (Some "linear")
  (dict_set K_agg_func (Some "max")
  (dict_set K_geometry_type (Some "polygon")
  (dict_set K_description (Some "New York City Boroughs")
  (dict_set K_text (Some "NYC Boroughs")
  (dict_set K_key (Some "nyc-boroughs")
  (dict_set K_name (Some "NYC Admin")
  dict_empty))))))))))))))).

(** [elevation_source_netcdf()], with the fixture path spelled out. *)
Definition elevation_source_netcdf : SourceDict :=
  dict_set K_service_types (Some ["tile"; "wms"; "image"; "geojson"])
  (dict_set K_transforms (Some [])
  (dict_set K_filepath (Some "/pkg/tests/fixtures/elevation.nc")
  (dict_set K_yfield (Some "geometry")
  (dict_set K_xfield (Some "geometry")
  (dict_set K_raster_interpolate (Some "linear")
  (dict_set K_raster_padding (Some 0%Z)
  (dict_set K_span (Some (SpanRange 58 248))
  (dict_set K_cmap (Some "white-black")
  (dict_set K_shade_how (Some "linear")
  (dict_set K_geometry_type (Some "raster")
  (dict_set K_description (Some "Global Elevation Dataset (NetCDF)")
  (dict_set K_text (Some "Elevation NetCDF")
  (dict_set K_key (Some "elevation-netcdf")
  (dict_set K_name (Some "Elevation NetCDF")
  dict_empty)))))))))))))).

(** The four transforms of [world_countries_source()] on a smaller
    dictionary: the overview builder comes third. *)
Definition countries_source : SourceDict :=
  let transforms :=
    [ {| t_name := "select_by_attributes"; t_args := Some [("field", "name")] |};
      {| t_name := "reproject_vector"; t_args := Some [("epsg", "3857")] |};
      {| t_name := "build_vector_overviews"; t_args := Some [("geometry_field", "geometry")] |};
      {| t_name := "to_spatialpandas"; t_args := Some [("geometry_field", "geometry")] |} ] in
  dict_set K_service_types (Some ["tile"; "geojson"])
  (dict_set K_transforms (Some transforms)
  (dict_set K_filepath (Some "/data/naturalearth_lowres.shp")
  (dict_set K_zfield (Some "pop_est")
  (dict_set K_span (Some (SpanName "min/max"))
  (dict_set K_geometry_type (Some "polygon")
  (dict_set K_key (Some "world-countries")
  (dict_set K_name (Some "World Countries")
  dict_empty))))))).

(** An instance with nothing declared, as [MapSource()] leaves it. *)
Definition blank : MapSource :=
  {| klass := MapSourceClass;
     attrs := {|
       name := None; description := None; filepath := None; config_path := None;
       geometry_type := None; key := None; text := None; legend := None;
       fields := None; span := None; route := None; xfield := "geometry";
       raster_padding := 0; yfield := "geometry"; zfield := None; agg_func := None;
       raster_agg_func := "linear"; shade_how := "linear";
       cmap := CmapGiven "viridis"; color_key := None; dynspread := None;
       extras := []; service_types := ["tile"; "image"; "wms"; "geojson"];
       transforms := [];
       default_extent := [-20037508; -20037508; 20037508; 20037508]%Z;
       default_width := 256; default_height := 256; preload := false;
       geometry_field := "geometry" |};
     overviews := PDict [];
     is_loaded := false;
     data := PNone |}.

(** The instance a constructor call returns in [world0]. *)
Definition constructed (cls : SourceClass) (kw : SourceDict) : MapSource :=
  match fst (__init__ cls kw world0) with
  | Ret self => self
  | Raise _ => blank
  end.

(** A dictionary that lists the raster-to-points conversion and has no key
    ['geometry_type']; the same with the key holding [None], and with a
    vector geometry type. *)
Definition categorical_undeclared : SourceDict :=
  dict_set K_service_types (Some ["tile"])
  (dict_set K_transforms
     (Some [{| t_name := "raster_to_categorical_points"; t_args := None |}])
  (dict_set K_filepath (Some "/data/landcover.tif")
  (dict_set K_key (Some "landcover")
  dict_empty))).

Definition categorical_none : SourceDict :=
  dict_set K_geometry_type None categorical_undeclared.

Definition categorical_point : SourceDict :=
  dict_set K_geometry_type (Some "point") categorical_undeclared.

(** A polygon source whose geometry type is [None]. *)
Definition untyped_source : SourceDict :=
  dict_set K_geometry_type None
  (dict_set K_filepath (Some "/data/parcels.shp")
  (dict_set K_key (Some "parcels")
  dict_empty)).

(** A frame handed over in memory, not yet loaded. *)
Definition in_memory_source : SourceDict :=
  dict_set K_data (Some "gdf:cities")
  (dict_set K_geometry_type (Some "point")
  (dict_set K_key (Some "cities")
  (dict_set K_transforms (Some [{| t_name := "reproject_vector"; t_args := None |}])
  dict_empty))).

Definition catalog0 (objs : list (nat * SourceDict)) : Catalog :=
  {| heap := list_to_map objs; world := world0; yielded := [] |}.

(** A source that holds a data object and two overview levels. *)
Definition two_levels : MapSource :=
  set_overviews (PDict [(LevelStr "0", PObj "a@0"); (LevelStr "1", PObj "a@1")])
    (set_data (PObj "a") blank).

Definition sp_step : TransformStep :=
  {| t_name := "to_spatialpandas"; t_args := Some [("geometry_field", "geometry")] |}.

Definition overviews_step : TransformStep :=
  {| t_name := "build_vector_overviews"; t_args := None |}.

(** The boroughs: as constructed, once data is attached, and once loaded. *)
Definition nybb_unloaded : MapSource := constructed VectorSourceClass nybb_source.

Definition nybb_attached : MapSource := set_data (PObj "nybb") nybb_unloaded.

Definition nybb_loaded : MapSource := fst (snd (load (nybb_unloaded, world0))).

(** The elevation raster, loaded. *)
Definition elevation_loaded : MapSource :=
  fst (snd (load (constructed RasterSourceClass elevation_source_netcdf, world0))).

(** Services over the loaded boroughs. *)
Definition nybb_service (k : ServiceClass) : MapService :=
  {| service_class := k; source := nybb_loaded; renderers := [] |}.

(** Two dictionaries at two addresses. *)
Definition catalog_two : Catalog :=
  catalog0 [(0%nat, nybb_source); (1%nat, elevation_source_netcdf)].

(** One dictionary, which the list [[0; 0]] names twice. *)
Definition catalog_one : Catalog := catalog0 [(0%nat, elevation_source_netcdf)].

(** A stricter environment: only [/srv] exists, a file whose path mentions
    ['missing'] cannot be read, no frame has a column ['nope'], and the
    conversion to spatialpandas rejects the overview of level 1. *)
Definition picky (suffix bad : string) : callable :=
  fun v args =>
    match v with
    | PObj d => if str_contains bad d then Raise (ValueError ("cannot convert " ++ d))
                else tag suffix v args
    | _ => tag suffix v args
    end.

Definition strict_externals : Externals := {|
  colors_viridis := "viridis";
  load_raster := fun p => Ret ("raster:" ++ p);
  load_vector := fun p => if str_contains "missing" p
                          then Raise (OSError ("No such file: " ++ p))
                          else Ret ("vector:" ++ p);
  get_transform_by_name := fun n => if String.eqb n "to_spatialpandas"
                                    then Ret (picky "|sp" "@1") else registry n;
  empty_args := [];
  path_abspath := fun here p => if String.prefix "/" p then p else here ++ "/" ++ p;
  path_dirname := fun p => p ++ "/..";
  path_expanduser := fun p => p;
  path_isabs := String.prefix "/";
  dir_exists := fun d => String.eqb d "/srv";
  is_GeoDataFrame := String.prefix "gdf";
  is_spatialpandas := fun d => str_contains "|sp" d;
  getitem_fields := fun d flds => if existsb (String.eqb "nope") flds
                                  then Raise (KeyError "nope") else Ret d;
  getitem_column := fun d c => Ret (d ++ "." ++ c);
  to_geopandas := fun d => Ret d;
  total_bounds := fun _ => Ret (-20, -10, 20, 10)%Z;
  coords_min := fun _ axis => Ret (if String.eqb axis "x" then -180 else -90)%Z;
  coords_max := fun _ axis => Ret (if String.eqb axis "x" then 180 else 90)%Z;
  float_20037508_3427892 := 20037508%Z;
  float_neg := Z.opp
|}.

(** The boroughs as a configuration file lists them, with a relative path. *)
Definition configured_source : SourceDict :=
  dict_set K_config_path (Some "conf/app.yaml")
  (dict_set K_filepath (Some "data/nybb.zip") nybb_source).

Definition nybb_configured : MapSource := constructed VectorSourceClass configured_source.

(** The boroughs with a file that is not there, and a frame asked for a column
    it does not have. *)
Definition nybb_missing : MapSource :=
  constructed VectorSourceClass (dict_set K_filepath (Some "/data/missing.shp") nybb_source).

Definition cities_nope : MapSource :=
  constructed VectorSourceClass (dict_set K_fields (Some ["nope"]) in_memory_source).

(** [two_levels] before its overviews were built. *)
Definition no_levels : MapSource := set_data (PObj "a") blank.

(** The same data with overviews left over from other data. *)
Definition stale_levels : MapSource :=
  set_overviews (PDict [(LevelStr "7", PObj "old@7"); (LevelStr "0", PObj "old@0")])
    no_levels.

(** The overview entries of [two_levels], and what the conversion to
    spatialpandas makes of them and of the data. *)
Definition levels_before : list (level * pyval) :=
  [(LevelStr "0", PObj "a@0"); (LevelStr "1", PObj "a@1")].

Definition levels_after : list (level * pyval) :=
  [(LevelStr "0", PObj "a@0|sp"); (LevelStr "1", PObj "a@1|sp")].

Definition data_after : pyval := PObj "a|sp".

Definition unknown_step : TransformStep :=
  {| t_name := "no_such_transform"; t_args := None |}.

Definition reproject_step : TransformStep :=
  {| t_name := "reproject_vector"; t_args := Some [("epsg", "3857")] |}.



(** A catalog whose second dictionary names a service type that does not
    exist, and one whose only dictionary loads eagerly. *)
Definition catalog_wmts : Catalog :=
  catalog0 [(0%nat, nybb_source);
            (1%nat, dict_set K_service_types (Some ["tile"; "wmts"; "image"])
                      elevation_source_netcdf)].

Definition catalog_countries : Catalog := catalog0 [(0%nat, countries_source)].

(** A service over a source with a default extent of two entries. *)
Definition short_extent_service (k : ServiceClass) : MapService :=
  {| service_class := k;
     source := constructed VectorSourceClass
                 (dict_set K_default_extent (Some [0; 1]%Z) nybb_source);
     renderers := [] |}.

Definition unloaded_service (k : ServiceClass) : MapService :=
  {| service_class := k; source := nybb_unloaded; renderers := [] |}.

End Demo.

(** ** Vocabulary for the statements below *)

(** A statement maintains a relation between the state it starts from and the
    state it leaves, whether it returns or raises. *)
Definition maintains {S A} (R : relation S) (m : M S A) : Prop :=
  forall s, R s (snd (m s)).

Section Vocabulary.
Context `{Externals}.

(** Two states of one instance: same class, same constructor-assigned
    attributes. *)
Definition same_descriptor : relation ObjState :=
  fun st st' =>
    klass (fst st') = klass (fst st) /\ attrs (fst st') = attrs (fst st).

(** The environment is untouched. *)
Definition same_world : relation ObjState :=
  fun st st' => snd st' = snd st.

(** The line [_apply_transforms] prints for a step. *)
Definition applying_line (trans : TransformStep) : string :=
  String "009" "Applying " ++ t_name trans.

(** The banner [_apply_transforms] prints first. *)
Definition banner (self : MapSource) : list string :=
  ["# ----------------------";
   "# APPLYING TRANSFORMS " ++ format (name self);
   "# ----------------------"].

(** The environment after printing some lines. *)
Definition printed (lines : list string) (w : World) : World :=
  {| cwd := cwd w; stdout := stdout w ++ lines |}.

(** Some declared step is an overview builder. *)
Definition declares_overviews (kw : SourceDict) : bool :=
  existsb (fun t => str_contains "overviews" (t_name t)) (default [] (kw K_transforms)).

(** The condition under which the constructor loads at once. *)
Definition eager (kw : SourceDict) : bool :=
  default false (kw K_preload) || declares_overviews kw.

(** Some declared step is the raster-to-points conversion. *)
Definition declares_to_vector (obj : SourceDict) : bool :=
  existsb (fun t => String.eqb (t_name t) "raster_to_categorical_points")
          (default [] (obj K_transforms)).

(** The subclass [from_obj] picks for a dictionary whose geometry type is
    [gt]. *)
Definition resolved_class (obj : SourceDict) (gt : string) : SourceClass :=
  if String.eqb gt "raster" || declares_to_vector obj
  then RasterSourceClass
  else VectorSourceClass.

(** The message of the constructor's [ValueError]. *)
Definition zfield_message : string :=
  "You must include a zfield for min/max scan calculation".

(** How a yielded service is identified: the key of its source and its
    service type. *)
Definition described (svc : MapService) : option string * string :=
  (key (source svc), service_type svc).

(** What the catalog loop reads from a source dictionary apart from handing
    it to [from_obj]: its key and its service types. *)
Definition entry_listing (obj : SourceDict) : option string * option (list string) :=
  (obj K_key, obj K_service_types).

Definition listing (h : gmap nat SourceDict) (a : nat)
  : option (option string * option (list string)) :=
  match h !! a with
  | Some obj => Some (entry_listing obj)
  | None => None
  end.

(** The filter lets a source through: no filter, or a key that contains it. *)
Definition wanted (contains : option string) (k : option string) : bool :=
  if truthy contains then
    match k with
    | Some k => str_contains (default EmptyString contains) k
    | None => false
    end
  else true.

(** The services expected for the dictionary at an address: one per declared
    service type, if the filter lets the source through. *)
Definition expected (contains : option string) (h : gmap nat SourceDict) (a : nat)
  : list (option string * string) :=
  match listing h a with
  | Some (k, types) =>
      if wanted contains k then map (fun t => (k, t)) (default [] types) else []
  | None => []
  end.

(** The source of a service is what [from_obj] returns for a dictionary. *)
Definition built_from (obj : SourceDict) (svc : MapService) : Prop :=
  exists w w', from_obj obj w = (Ret (source svc), w').

(** A dictionary the catalog loop can process to the end, under a given
    filter: it declares service types, all of them known; it has a key if a
    filter is set; and a source can be built from it, whatever [config_path]
    has been assigned into it in the meantime. *)
Definition well_formed_at (contains : option string) (h : gmap nat SourceDict)
    (a : nat) : Prop :=
  exists (obj : SourceDict) (ts : list string),
    h !! a = Some obj
    /\ obj K_service_types = Some ts
    /\ Forall (fun t => is_ret (service_classes t) = true) ts
    /\ (truthy contains = true -> obj K_key <> None)
    /\ (forall (obj' : SourceDict) (w : World),
          (forall k, k <> K_config_path -> obj' k = obj k) ->
          is_ret (fst (from_obj obj' w)) = true).

(** The working directory is the one the statement started in, provided that
    directory can be entered (so that [os.chdir] back to it succeeds). *)
Definition cwd_restored : relation World :=
  fun w w' => dir_exists (cwd w) = true -> cwd w' = cwd w.

Definition keeps_cwd : relation ObjState :=
  fun st st' => cwd_restored (snd st) (snd st').

(** The loaded flag is what it was. *)
Definition same_flag : relation ObjState :=
  fun st st' => is_loaded (fst st') = is_loaded (fst st).

(** The step is not an overview builder. *)
Definition data_step (trans : TransformStep) : Prop :=
  str_contains "overviews" (t_name trans) = false.

End Vocabulary.

(** * Properties *)

Local Open Scope list_scope.

Ltac unfold_monad :=
  unfold mbind, M_bind, mret, M_ret, fmap, M_fmap, res_bind, res_ret, res_fmap,
    eval, raise, gets, modify, get_self, modify_self, in_world, in_catalog_world,
    zoom, print, os_getcwd in *.

Section Generic.
Context {S : Type}.

Lemma for_each_app {A} (l1 l2 : list A) (body : A -> M S unit) (s : S) :
  for_each (l1 ++ l2) body s = (for_each l1 body;; for_each l2 body) s.
Proof.
  revert s. induction l1 as [|x l1 IH]; intros s; simpl.
  - reflexivity.
  - unfold_monad. destruct (body x s) as [[[]|e] s1]; [apply IH | reflexivity].
Qed.

Lemma maintains_ret {A} (R : relation S) `{!Reflexive R} (a : A) : maintains R (mret a).
Proof. intros s. unfold_monad. simpl. reflexivity. Qed.

Lemma maintains_eval {A} (R : relation S) `{!Reflexive R} (r : res A) : maintains R (eval r).
Proof. intros s. unfold_monad. simpl. reflexivity. Qed.

Lemma maintains_raise {A} (R : relation S) `{!Reflexive R} e : maintains R (raise (A:=A) e).
Proof. intros s. unfold_monad. simpl. reflexivity. Qed.

Lemma maintains_gets {A} (R : relation S) `{!Reflexive R} (f : S -> A) : maintains R (gets f).
Proof. intros s. unfold_monad. simpl. reflexivity. Qed.

Lemma maintains_bind {A B} (R : relation S) `{!Transitive R} (m : M S A) (k : A -> M S B) :
  maintains R m -> (forall a, maintains R (k a)) -> maintains R (m ≫= k).
Proof.
  intros Hm Hk s. unfold_monad. specialize (Hm s).
  destruct (m s) as [[a|e] s1]; simpl in *; [|exact Hm].
  etransitivity; [exact Hm | apply Hk].
Qed.

Lemma maintains_fmap {A B} (R : relation S) (f : A -> B) (m : M S A) :
  maintains R m -> maintains R (f <$> m).
Proof.
  intros Hm s. unfold_monad. specialize (Hm s).
  destruct (m s) as [[a|e] s1]; exact Hm.
Qed.

Lemma maintains_for_each {A} (R : relation S) `{!PreOrder R} (l : list A) (body : A -> M S unit) :
  (forall x, maintains R (body x)) -> maintains R (for_each l body).
Proof.
  intros Hb. induction l as [|x l IH]; simpl.
  - apply maintains_ret; apply _.
  - apply maintains_bind; [apply _ | apply Hb | intros _; exact IH].
Qed.

End Generic.

Lemma level_eqb_eq (a b : level) : level_eqb a b = true <-> a = b.
Proof.
  destruct a as [s|z], b as [s'|z']; simpl; split; intros E; try discriminate.
  - apply String.eqb_eq in E. congruence.
  - inversion E; subst. apply String.eqb_refl.
  - apply Z.eqb_eq in E. congruence.
  - inversion E; subst. apply Z.eqb_refl.
Qed.

Lemma level_eqb_refl (a : level) : level_eqb a a = true.
Proof. apply level_eqb_eq. reflexivity. Qed.

Lemma level_eqb_neq (a b : level) : a <> b -> level_eqb a b = false.
Proof.
  intros Hne. destruct (level_eqb a b) eqn:E; [|reflexivity].
  apply level_eqb_eq in E. contradiction.
Qed.

Section Pipeline.
Context `{Externals}.

(** Assigning to a key that sits behind entries with other keys rewrites
    that entry where it stands. *)
Lemma assoc_set_middle (done rest : list (level * pyval)) k v x :
  ~ In k (map fst done) ->
  assoc_set (done ++ (k, v) :: rest) k x = done ++ (k, x) :: rest.
Proof.
  induction done as [|[k' v'] done IH]; simpl; intros Hnot.
  - rewrite level_eqb_refl. reflexivity.
  - rewrite level_eqb_neq by (intros ->; apply Hnot; left; reflexivity).
    f_equal. apply IH. intros Hin. apply Hnot. right. exact Hin.
Qed.

(** The inner loop of a data transform: with distinct keys, the loop leaves
    every entry under its key, in its place, transformed. *)
Lemma overview_loop (func : callable) (args : Kwargs) :
  forall (todo todo' done : list (level * pyval)) (self : MapSource) (w : World),
    overviews self = PDict (done ++ todo) ->
    List.NoDup (map fst (done ++ todo)) ->
    Forall2 (fun e e' => fst e' = fst e /\ func (snd e) args = Ret (snd e')) todo todo' ->
    for_each todo (transform_overview func args) (self, w)
    = (Ret tt, (set_overviews (PDict (done ++ todo')) self, w)).
Proof.
  induction todo as [|[k v] todo IH]; intros todo' done self w Hov Hnd Hall.
  - inversion Hall; subst. simpl. unfold_monad. rewrite app_nil_r in *.
    destruct self; simpl in *. subst. reflexivity.
  - inversion Hall as [|? [k' v'] ? todo1 [Hk Hv] Hrest]; subst. simpl in Hk, Hv. subst k'.
    simpl. unfold_monad. simpl. rewrite Hv. simpl. rewrite Hov. simpl.
    assert (Hfresh : ~ In k (map fst done)).
    { rewrite map_app in Hnd. simpl in Hnd. apply NoDup_remove_2 in Hnd.
      intros Hin. apply Hnd. apply in_or_app. left. exact Hin. }
    rewrite assoc_set_middle by exact Hfresh.
    specialize (IH todo1 (done ++ [(k, v')])
                  (set_overviews (PDict (done ++ (k, v') :: todo)) self) w).
    rewrite <- !app_assoc in IH. simpl in IH.
    rewrite IH; [reflexivity | reflexivity | | exact Hrest].
    rewrite !map_app in *. simpl in *. exact Hnd.
Qed.

End Pipeline.

Section Frames.
Context `{Externals}.

Lemma same_descriptor_preorder : PreOrder same_descriptor.
Proof.
  split.
  - intros st. split; reflexivity.
  - intros a b c [K1 A1] [K2 A2]. split; congruence.
Qed.

Lemma same_world_preorder : PreOrder same_world.
Proof.
  split.
  - intros st. reflexivity.
  - intros a b c E1 E2. unfold same_world in *. congruence.
Qed.

Lemma maintains_in_world_descriptor {A} (m : M World A) :
  maintains same_descriptor (in_world m).
Proof. intros [self w]. unfold_monad. simpl. destruct (m w). split; reflexivity. Qed.

Lemma maintains_modify_descriptor (f : MapSource -> MapSource) :
  (forall self, klass (f self) = klass self /\ attrs (f self) = attrs self) ->
  maintains same_descriptor (modify_self f).
Proof. intros Hf [self w]. unfold_monad. simpl. apply Hf. Qed.

Lemma maintains_modify_world (f : MapSource -> MapSource) :
  maintains same_world (modify_self f).
Proof. intros [self w]. reflexivity. Qed.

End Frames.

#[global] Existing Instance same_descriptor_preorder.
#[global] Existing Instance same_world_preorder.

(** Decompose a statement along its syntax to show that it maintains a
    relation. *)
Ltac maintains_step :=
  cbv zeta;
  lazymatch goal with
  | |- maintains _ (mret _) => apply maintains_ret; apply _
  | |- maintains _ (eval _) => apply maintains_eval; apply _
  | |- maintains _ (raise _) => apply maintains_raise; apply _
  | |- maintains _ (gets _) => apply maintains_gets; apply _
  | |- maintains _ get_self => unfold get_self
  | |- maintains same_descriptor (in_world _) => apply maintains_in_world_descriptor
  | |- maintains same_world (modify_self _) => apply maintains_modify_world
  | |- maintains same_descriptor (modify_self _) =>
      apply maintains_modify_descriptor; intros ?; split; reflexivity
  | |- maintains _ (fmap _ _) => apply maintains_fmap
  | |- maintains _ (mbind _ _) => apply maintains_bind; [apply _ | | intros ?]
  | |- maintains _ (for_each _ _) => apply maintains_for_each; [apply _ | intros ?]
  | |- maintains _ (if ?b then _ else _) => destruct b
  | |- maintains _ (match ?x with _ => _ end) => destruct x
  end.

Ltac solve_maintains := repeat maintains_step.

Section PipelineFrames.
Context `{Externals}.

Lemma transform_overview_world func args entry :
  maintains same_world (transform_overview func args entry).
Proof. unfold transform_overview. destruct entry. unfold get_self. solve_maintains. Qed.

Lemma transform_overview_descriptor func args entry :
  maintains same_descriptor (transform_overview func args entry).
Proof. unfold transform_overview. destruct entry. unfold get_self. solve_maintains. Qed.

Lemma apply_transform_descriptor trans :
  maintains same_descriptor (apply_transform trans).
Proof.
  unfold apply_transform, get_self. solve_maintains.
  all: apply transform_overview_descriptor.
Qed.

Lemma printed_printed l1 l2 w : printed l2 (printed l1 w) = printed (l1 ++ l2) w.
Proof. unfold printed. simpl. rewrite app_assoc. reflexivity. Qed.

Lemma printed_nil w : printed [] w = w.
Proof. destruct w. unfold printed. simpl. rewrite app_nil_r. reflexivity. Qed.

(** A step prints its line and otherwise leaves the environment alone,
    whatever its outcome. *)
Lemma apply_transform_world trans self w :
  snd (snd (apply_transform trans (self, w))) = printed [applying_line trans] w.
Proof.
  unfold apply_transform.
  unfold mbind at 1. unfold M_bind at 1. unfold in_world, zoom, print, modify. simpl.
  match goal with
  | |- snd (snd (?body ?st)) = _ =>
      assert (Hbody : maintains same_world body);
      [ unfold get_self; solve_maintains; apply transform_overview_world
      | apply (Hbody st) ]
  end.
Qed.

Lemma pipeline_world ts : forall self w s' w',
  for_each ts apply_transform (self, w) = (Ret tt, (s', w')) ->
  w' = printed (map applying_line ts) w.
Proof.
  induction ts as [|t ts IH]; intros self w s' w' Hrun; simpl in *.
  - unfold_monad. inversion Hrun; subst. symmetry. apply printed_nil.
  - unfold mbind, M_bind in Hrun.
    pose proof (apply_transform_world t self w) as Hw.
    destruct (apply_transform t (self, w)) as [[[]|e] [s1 w1]]; [|discriminate].
    simpl in Hw. subst w1. apply IH in Hrun. subst w'.
    rewrite printed_printed. reflexivity.
Qed.

End PipelineFrames.

Section TransformPipeline.
Context `{Externals}.

Lemma apply_transforms_runs_pipeline (self : MapSource) (w : World) :
  _apply_transforms (self, w)
  = for_each (transforms self) apply_transform (self, printed (banner self) w).
Proof.
  unfold _apply_transforms. unfold_monad. simpl.
  unfold printed, banner. simpl. rewrite <- !app_assoc. reflexivity.
Qed.

Lemma overview_builder_step (trans : TransformStep) (func : callable)
    (self : MapSource) (w : World) (ovs : pyval) :
  str_contains "overviews" (t_name trans) = true ->
  get_transform_by_name (t_name trans) = Ret func ->
  func (data self) (default empty_args (t_args trans)) = Ret ovs ->
  apply_transform trans (self, w)
  = (Ret tt, (set_overviews ovs self, printed [applying_line trans] w)).
Proof.
  intros Hname Hfunc Hcall. unfold apply_transform. unfold_monad. simpl.
  rewrite Hfunc, Hname. simpl. rewrite Hcall. reflexivity.
Qed.

Lemma data_transform_step (trans : TransformStep) (func : callable)
    (self : MapSource) (w : World) (d : pyval) (m m' : list (level * pyval)) :
  str_contains "overviews" (t_name trans) = false ->
  get_transform_by_name (t_name trans) = Ret func ->
  func (data self) (default empty_args (t_args trans)) = Ret d ->
  overviews self = PDict m ->
  List.NoDup (map fst m) ->
  Forall2 (fun e e' => fst e' = fst e /\
                       func (snd e) (default empty_args (t_args trans)) = Ret (snd e')) m m' ->
  apply_transform trans (self, w)
  = (Ret tt, (set_overviews (PDict m') (set_data d self), printed [applying_line trans] w)).
Proof.
  intros Hname Hfunc Hcall Hov Hnd Hall.
  unfold apply_transform. unfold_monad. simpl.
  rewrite Hfunc, Hname. simpl. rewrite Hcall. simpl. rewrite Hov. simpl.
  exact (overview_loop func _ m m' [] (set_data d self) _ Hov Hnd Hall).
Qed.

(** C1.  [_apply_transforms] walks [self.transforms] from first to last (the
    loop over a concatenation is the loop over the first part followed by the
    loop over the second, and a run that returns has printed one line per step
    in declared order).  A step whose name contains ['overviews'] calls the
    transform on [self.data] with the step's arguments and stores the result
    as [self.overviews], replacing whatever was there and leaving [self.data]
    alone: afterwards [self.overviews] is that result and nothing of the old
    mapping.  Any other step stores the transform's result as [self.data] and
    then replaces every entry of [self.overviews], under its key and in its
    place, by the result of the same transform with the same arguments:
    afterwards [self.data] is the result and [self.overviews] holds the
    transformed entries.  Neither kind of step touches anything else of the
    instance. *)
Theorem apply_transforms_pipeline :
  (forall (self : MapSource) (w : World),
      _apply_transforms (self, w)
      = for_each (transforms self) apply_transform (self, printed (banner self) w))
  /\ (forall (ts1 ts2 : list TransformStep) (st : ObjState),
      for_each (ts1 ++ ts2) apply_transform st
      = (for_each ts1 apply_transform;; for_each ts2 apply_transform) st)
  /\ (forall (self s' : MapSource) (w w' : World),
      _apply_transforms (self, w) = (Ret tt, (s', w')) ->
      w' = printed (banner self ++ map applying_line (transforms self)) w)
  /\ (forall (trans : TransformStep) (func : callable) (self : MapSource) (w : World)
             (ovs : pyval),
      str_contains "overviews" (t_name trans) = true ->
      get_transform_by_name (t_name trans) = Ret func ->
      func (data self) (default empty_args (t_args trans)) = Ret ovs ->
      exists s' : MapSource,
        apply_transform trans (self, w)
        = (Ret tt, (s', printed [applying_line trans] w))
        /\ overviews s' = ovs
        /\ data s' = data self
        /\ klass s' = klass self /\ attrs s' = attrs self
        /\ is_loaded s' = is_loaded self)
  /\ (forall (trans : TransformStep) (func : callable) (self : MapSource) (w : World)
             (d : pyval) (m m' : list (level * pyval)),
      str_contains "overviews" (t_name trans) = false ->
      get_transform_by_name (t_name trans) = Ret func ->
      func (data self) (default empty_args (t_args trans)) = Ret d ->
      overviews self = PDict m ->
      List.NoDup (map fst m) ->
      Forall2 (fun e e' => fst e' = fst e /\
                           func (snd e) (default empty_args (t_args trans)) = Ret (snd e'))
              m m' ->
      exists s' : MapSource,
        apply_transform trans (self, w)
        = (Ret tt, (s', printed [applying_line trans] w))
        /\ data s' = d
        /\ overviews s' = PDict m'
        /\ klass s' = klass self /\ attrs s' = attrs self
        /\ is_loaded s' = is_loaded self).
Proof.
  split; [exact apply_transforms_runs_pipeline|].
  split; [intros; apply for_each_app|].
  split; [|split].
  - intros self s' w w' Hrun. rewrite apply_transforms_runs_pipeline in Hrun.
    apply pipeline_world in Hrun. rewrite Hrun. apply printed_printed.
  - intros trans func self w ovs Hname Hfunc Hovs.
    exists (set_overviews ovs self).
    rewrite (overview_builder_step trans func self w ovs Hname Hfunc Hovs).
    repeat split.
  - intros trans func self w d m m' Hname Hfunc Hd Hm Hnodup Hall.
    exists (set_overviews (PDict m') (set_data d self)).
    rewrite (data_transform_step trans func self w d m m' Hname Hfunc Hd Hm Hnodup Hall).
    repeat split.
Qed.

End TransformPipeline.

Section Inversion.
Context {S : Type}.

(** A sequence that returns went through a first part that returned. *)
Lemma bind_returns {A B} (m : M S A) (k : A -> M S B) (s s' : S) (b : B) :
  (m ≫= k) s = (Ret b, s') ->
  exists a s1, m s = (Ret a, s1) /\ k a s1 = (Ret b, s').
Proof.
  unfold mbind, M_bind. destruct (m s) as [[a|e] s1]; intros Hrun.
  - exists a, s1. split; [reflexivity | exact Hrun].
  - discriminate.
Qed.

Lemma bind_run {A B} (m : M S A) (k : A -> M S B) (s s1 : S) (a : A) :
  m s = (Ret a, s1) -> (m ≫= k) s = k a s1.
Proof. intros Hm. unfold mbind, M_bind. rewrite Hm. reflexivity. Qed.

Lemma bind_raises {A B} (m : M S A) (k : A -> M S B) (s s1 : S) (e : exn) :
  m s = (Raise e, s1) -> (m ≫= k) s = (Raise e, s1).
Proof. intros Hm. unfold mbind, M_bind. rewrite Hm. reflexivity. Qed.

End Inversion.

Section Load.
Context `{Externals}.

Lemma load_when_loaded (self : MapSource) (w : World) :
  is_loaded self = true -> load (self, w) = (Ret tt, (self, w)).
Proof. intros Hl. unfold load. unfold_monad. simpl. rewrite Hl. reflexivity. Qed.

Lemma finish_load_marks_loaded (st st' : ObjState) :
  _finish_load st = (Ret tt, st') -> is_loaded (fst st') = true.
Proof.
  unfold _finish_load. intros Hrun.
  apply bind_returns in Hrun as (self & st1 & Hget & Hrun).
  unfold get_self, gets in Hget. inversion Hget; subst; clear Hget.
  destruct (is_loaded (fst st1)) eqn:Hl.
  - unfold_monad. inversion Hrun; subst. exact Hl.
  - apply bind_returns in Hrun as ([] & st2 & _ & Hset).
    unfold_monad. inversion Hset; subst. reflexivity.
Qed.

Lemma load_marks_loaded (st st' : ObjState) :
  load st = (Ret tt, st') -> is_loaded (fst st') = true.
Proof.
  unfold load. intros Hrun.
  apply bind_returns in Hrun as (self & st1 & Hget & Hrun).
  unfold get_self, gets in Hget. inversion Hget; subst; clear Hget.
  destruct (is_loaded (fst st1)) eqn:Hl.
  - unfold_monad. inversion Hrun; subst. exact Hl.
  - apply bind_returns in Hrun as (d & st2 & _ & Hrun).
    apply bind_returns in Hrun as (d' & st3 & _ & Hrun).
    apply bind_returns in Hrun as ([] & st4 & _ & Hrun).
    eapply finish_load_marks_loaded. exact Hrun.
Qed.

(** C2.  [load] on a loaded source changes nothing and returns; and for every
    source and environment, running [load] and then [load] again leaves
    exactly the state a single [load] leaves (data object, overviews, flag,
    attributes and environment alike), with the same outcome. *)
Theorem load_idempotent :
  (forall (self : MapSource) (w : World),
      is_loaded self = true -> load (self, w) = (Ret tt, (self, w)))
  /\ (forall st : ObjState, (load;; load) st = load st).
Proof.
  split; [exact load_when_loaded|].
  intros st. unfold mbind, M_bind.
  destruct (load st) as [[[]|e] [s1 w1]] eqn:Hrun; [|reflexivity].
  apply load_when_loaded. exact (load_marks_loaded _ _ Hrun).
Qed.

Lemma apply_transforms_descriptor : maintains same_descriptor _apply_transforms.
Proof.
  unfold _apply_transforms, get_self. solve_maintains.
  apply apply_transform_descriptor.
Qed.

Lemma finish_load_descriptor : maintains same_descriptor _finish_load.
Proof.
  unfold _finish_load, get_self. solve_maintains.
  apply apply_transforms_descriptor.
Qed.

(** [load] never touches the class or the constructor-assigned attributes. *)
Lemma load_descriptor : maintains same_descriptor load.
Proof.
  unfold load, get_self. solve_maintains.
  all: apply finish_load_descriptor.
Qed.

End Load.

Section Constructor.
Context `{Externals}.

Lemma contains_overviews_existsb (ts : list TransformStep) :
  contains_overviews ts = existsb (fun t => str_contains "overviews" (t_name t)) ts.
Proof.
  unfold contains_overviews. induction ts as [|t ts IH]; simpl.
  - reflexivity.
  - destruct (str_contains "overviews" (t_name t)); simpl; [reflexivity | exact IH].
Qed.

(** What the assignments of [__init__] leave in the new instance. *)
Lemma init_attributes_returns (cls : SourceClass) (kw : SourceDict) (self : MapSource) :
  init_attributes cls kw = Ret self ->
  klass self = cls
  /\ is_loaded self = false
  /\ preload self = default false (kw K_preload)
  /\ transforms self = default [] (kw K_transforms)
  /\ raster_padding self = 0%Z
  /\ key self = kw K_key
  /\ config_path self = kw K_config_path
  /\ filepath self = kw K_filepath
  /\ data self = match kw K_data with Some d => PObj d | None => PNone end
  /\ span_needs_zfield kw = false.
Proof.
  unfold init_attributes. destruct (span_needs_zfield kw); [discriminate|].
  destruct (init_cmap kw) as [cm|e]; simpl; [|discriminate].
  intros Hret. inversion Hret; subst; clear Hret. simpl. repeat split.
Qed.

Lemma init_unfold (cls : SourceClass) (kw : SourceDict) (w : World) :
  __init__ cls kw w
  = match init_attributes cls kw with
    | Raise e => (Raise e, w)
    | Ret self => if eager kw then call_method load self w else (Ret self, w)
    end.
Proof.
  unfold __init__. unfold mbind, M_bind, eval.
  destruct (init_attributes cls kw) as [self|e] eqn:Hinit; [|reflexivity].
  apply init_attributes_returns in Hinit as (_ & _ & Hp & Ht & _).
  unfold eager, declares_overviews. rewrite Hp, Ht, contains_overviews_existsb.
  destruct (_ || _); reflexivity.
Qed.

Lemma call_load_returns (self self' : MapSource) (w w' : World) :
  call_method load self w = (Ret self', w') ->
  load (self, w) = (Ret tt, (self', w')).
Proof.
  unfold call_method. destruct (load (self, w)) as [[[]|e] [s1 w1]]; intros Hc.
  - inversion Hc; subst. reflexivity.
  - discriminate.
Qed.

Lemma call_load_descriptor (self : MapSource) (w : World) (r : res MapSource) (w' : World) :
  call_method load self w = (r, w') ->
  forall self', r = Ret self' -> klass self' = klass self /\ attrs self' = attrs self.
Proof.
  unfold call_method. pose proof (load_descriptor (self, w)) as Hd.
  destruct (load (self, w)) as [[[]|e] [s1 w1]]; intros Hc self' ->.
  - inversion Hc; subst. exact Hd.
  - discriminate.
Qed.

(** Class and constructor-assigned attributes of a constructed source are
    those the assignments gave it, loaded at once or not. *)
Lemma init_descriptor (cls : SourceClass) (kw : SourceDict) (w w' : World)
    (self' : MapSource) :
  __init__ cls kw w = (Ret self', w') ->
  exists self, init_attributes cls kw = Ret self
               /\ klass self' = klass self /\ attrs self' = attrs self.
Proof.
  rewrite init_unfold. destruct (init_attributes cls kw) as [self|e]; [|discriminate].
  intros Hrun. exists self. split; [reflexivity|].
  destruct (eager kw).
  - eapply call_load_descriptor; [exact Hrun | reflexivity].
  - inversion Hrun; subst. split; reflexivity.
Qed.

(** C3.  The constructor calls [load] on the instance it has just filled in
    exactly when [preload] is set or the name of some declared transform
    contains ['overviews'], and otherwise returns that instance as it is.
    So a constructor call that returns hands back a loaded source in the
    first case and, in the second, an unloaded one with the environment
    untouched, which the first [load] that returns marks as loaded. *)
Theorem init_loads_iff_eager (cls : SourceClass) (kw : SourceDict) (w : World) :
  __init__ cls kw w
  = match init_attributes cls kw with
    | Raise e => (Raise e, w)
    | Ret self => if eager kw then call_method load self w else (Ret self, w)
    end
  /\ forall (self' : MapSource) (w' : World),
      __init__ cls kw w = (Ret self', w') ->
      (is_loaded self' = true <-> eager kw = true)
      /\ (eager kw = true ->
          exists self, init_attributes cls kw = Ret self
                       /\ load (self, w) = (Ret tt, (self', w')))
      /\ (eager kw = false ->
          init_attributes cls kw = Ret self' /\ w' = w
          /\ forall (w1 w2 : World) (self2 : MapSource),
              load (self', w1) = (Ret tt, (self2, w2)) -> is_loaded self2 = true).
Proof.
  split; [apply init_unfold|].
  intros self' w'. rewrite init_unfold.
  destruct (init_attributes cls kw) as [self|e] eqn:Hinit; [|discriminate].
  apply init_attributes_returns in Hinit as (_ & Hfresh & _).
  destruct (eager kw); intros Hrun.
  - apply call_load_returns in Hrun.
    pose proof (load_marks_loaded _ _ Hrun) as Hl. simpl in Hl.
    split; [split; intros _; [reflexivity | exact Hl]|].
    split; [intros _; exists self; split; [reflexivity | exact Hrun] | discriminate].
  - inversion Hrun; subst; clear Hrun.
    split; [split; intros Hc; [congruence | discriminate]|].
    split; [discriminate|]. intros _.
    split; [reflexivity|]. split; [reflexivity|].
    intros w1 w2 self2 Hload. exact (load_marks_loaded _ _ Hload).
Qed.

(** C10.  Whatever is passed as [raster_padding], a constructed source has
    [raster_padding = 0], and the constructor behaves exactly as it does
    without the argument. *)
Theorem raster_padding_discarded (cls : SourceClass) (kw : SourceDict)
    (padding : option Z) (w : World) :
  __init__ cls (dict_set K_raster_padding padding kw) w = __init__ cls kw w
  /\ forall (self : MapSource) (w' : World),
      __init__ cls (dict_set K_raster_padding padding kw) w = (Ret self, w') ->
      raster_padding self = 0%Z.
Proof.
  split; [reflexivity|].
  intros self w' Hrun.
  apply init_descriptor in Hrun as (self0 & Hinit & _ & Hattrs).
  apply init_attributes_returns in Hinit as (_ & _ & _ & _ & Hpad & _).
  rewrite Hattrs. exact Hpad.
Qed.

End Constructor.

Section FromObj.
Context `{Externals}.

Lemma count_existsb {A} (f : A -> bool) (l : list A) :
  negb (length (List.filter f l) =? 0)%nat = existsb f l.
Proof.
  induction l as [|x l IH]; simpl; [reflexivity|].
  destruct (f x); simpl; [reflexivity | exact IH].
Qed.

Lemma existsb_In {A} (f : A -> bool) (l : list A) :
  existsb f l = true <-> exists x, In x l /\ f x = true.
Proof. apply existsb_exists. Qed.

Lemma has_to_vector_existsb {A} (f : A -> bool) (ts : option (list A)) :
  negb ((if truthy_list ts then length (List.filter f (default [] ts)) else 0) =? 0)%nat
  = existsb f (default [] ts).
Proof.
  destruct ts as [[|t l]|]; [reflexivity | | reflexivity].
  unfold truthy_list. apply count_existsb.
Qed.

Lemma dict_has_value (d : SourceDict) (k : kwkey) (v : kwtype k) :
  d k = Some v -> dict_has d k = true.
Proof. intros Hv. unfold dict_has. rewrite Hv. reflexivity. Qed.

Lemma dict_absent_none (d : SourceDict) (k : kwkey) :
  dict_has d k = false -> d k = None.
Proof. unfold dict_has. destruct (d k); [discriminate | reflexivity]. Qed.

Lemma dict_getitem_present (d : SourceDict) (k : kwkey) (pyname : string) :
  dict_has d k = true -> dict_getitem d k pyname = Ret (d k).
Proof. intros Hk. unfold dict_getitem. rewrite Hk. reflexivity. Qed.

Lemma dict_getitem_absent (d : SourceDict) (k : kwkey) (pyname : string) :
  dict_has d k = false -> dict_getitem d k pyname = Raise (KeyError pyname).
Proof. intros Hk. unfold dict_getitem. rewrite Hk. reflexivity. Qed.

(** [from_obj] on a dictionary that has the key ['geometry_type'], whatever
    it holds. *)
Lemma from_obj_present (obj : SourceDict) (w : World) :
  dict_has obj K_geometry_type = true ->
  from_obj obj w
  = __init__ (if eq_str (obj K_geometry_type) "raster" || declares_to_vector obj
              then RasterSourceClass else VectorSourceClass) obj w.
Proof.
  intros Hk. unfold from_obj, declares_to_vector. cbv zeta.
  rewrite has_to_vector_existsb, (dict_getitem_present _ _ _ Hk).
  unfold mbind, M_bind, eval.
  destruct (_ || _); reflexivity.
Qed.

Lemma from_obj_unfold (obj : SourceDict) (gt : string) (w : World) :
  obj K_geometry_type = Some gt ->
  from_obj obj w = __init__ (resolved_class obj gt) obj w.
Proof.
  intros Hgt. rewrite (from_obj_present obj w (dict_has_value _ _ _ Hgt)).
  unfold resolved_class. rewrite Hgt. reflexivity.
Qed.

(** A dictionary without the key ['geometry_type'] stops [from_obj] at
    [obj['geometry_type']], whatever its transforms. *)
Lemma from_obj_undeclared (obj : SourceDict) (w : World) :
  dict_has obj K_geometry_type = false ->
  from_obj obj w = (Raise (KeyError "geometry_type"), w).
Proof.
  intros Hgt. unfold from_obj. cbv zeta.
  rewrite (dict_getitem_absent _ _ _ Hgt). reflexivity.
Qed.

(** C8.  For every dictionary: if it has the key ['geometry_type'], whatever
    the key holds, [from_obj] is the constructor of [RasterSource] when the
    geometry type is ['raster'] or some declared transform is named
    ['raster_to_categorical_points'], and the constructor of [VectorSource]
    in every other case; if it lacks the key, [from_obj] raises [KeyError],
    whatever its transforms.  A source that [from_obj] returns is of the
    class so chosen. *)
Theorem from_obj_resolves_class (obj : SourceDict) :
  let raster_kind := obj K_geometry_type = Some "raster" in
  let to_vector :=
    exists t, In t (default [] (obj K_transforms))
              /\ t_name t = "raster_to_categorical_points" in
  (dict_has obj K_geometry_type = true ->
   (forall w : World,
       from_obj obj w
       = __init__ (if eq_str (obj K_geometry_type) "raster" || declares_to_vector obj
                   then RasterSourceClass else VectorSourceClass) obj w)
   /\ (eq_str (obj K_geometry_type) "raster" || declares_to_vector obj = true
       <-> raster_kind \/ to_vector))
  /\ (dict_has obj K_geometry_type = false ->
      forall w : World, from_obj obj w = (Raise (KeyError "geometry_type"), w))
  /\ (forall (w w' : World) (self : MapSource),
      from_obj obj w = (Ret self, w') ->
      dict_has obj K_geometry_type = true
      /\ (klass self = RasterSourceClass <-> raster_kind \/ to_vector)
      /\ (klass self = VectorSourceClass <-> ~ (raster_kind \/ to_vector))).
Proof.
  intros raster_kind to_vector.
  assert (Hiff : eq_str (obj K_geometry_type) "raster" || declares_to_vector obj = true
                 <-> raster_kind \/ to_vector).
  { rewrite orb_true_iff. unfold declares_to_vector, to_vector, raster_kind, eq_str.
    rewrite existsb_In. split.
    - intros [Hr|(t & Hin & Ht)].
      + left. destruct (obj K_geometry_type) as [gt|]; [|discriminate].
        apply String.eqb_eq in Hr. subst gt. reflexivity.
      + right. exists t. apply String.eqb_eq in Ht. auto.
    - intros [Hr|(t & Hin & Ht)].
      + left. rewrite Hr. apply String.eqb_refl.
      + right. exists t. split; [exact Hin|]. apply String.eqb_eq. exact Ht. }
  split; [|split].
  - intros Hk. split; [intros w; apply (from_obj_present obj w Hk) | exact Hiff].
  - intros Hk w. apply (from_obj_undeclared obj w Hk).
  - intros w w' self Hrun.
    destruct (dict_has obj K_geometry_type) eqn:Hk.
    2:{ rewrite (from_obj_undeclared obj w Hk) in Hrun. discriminate. }
    split; [reflexivity|].
    rewrite (from_obj_present obj w Hk) in Hrun.
    apply init_descriptor in Hrun as (self0 & Hinit & Hcls' & _).
    apply init_attributes_returns in Hinit as (Hcls & _).
    rewrite Hcls', Hcls.
    destruct (eq_str (obj K_geometry_type) "raster" || declares_to_vector obj) eqn:Hb.
    + split; split; intros Hx; try reflexivity; try discriminate.
      * apply Hiff. reflexivity.
      * exfalso. apply Hx. apply Hiff. reflexivity.
    + split; split; intros Hx; try reflexivity; try discriminate.
      * apply Hiff in Hx. discriminate.
      * intros Hc. apply Hiff in Hc. discriminate.
Qed.

End FromObj.

Section SpanCheck.
Context `{Externals}.

Lemma span_needs_zfield_true (kw : SourceDict) :
  span_needs_zfield kw = true
  <-> kw K_span = Some (SpanName "min/max")
      /\ kw K_zfield = None
      /\ kw K_geometry_type <> Some "raster".
Proof.
  unfold span_needs_zfield, span_is, is_none, eq_str.
  rewrite !andb_true_iff, negb_true_iff. split.
  - intros [[Hs Hz] Hg]. repeat split.
    + destruct (kw K_span) as [[s|lo hi]|]; try discriminate.
      apply String.eqb_eq in Hs. subst s. reflexivity.
    + destruct (kw K_zfield); [discriminate | reflexivity].
    + intros Hc. rewrite Hc in Hg. rewrite String.eqb_refl in Hg. discriminate.
  - intros (Hs & Hz & Hg). rewrite Hs, Hz. repeat split.
    destruct (kw K_geometry_type) as [g|]; [|reflexivity].
    destruct (String.eqb g "raster") eqn:E; [|reflexivity].
    apply String.eqb_eq in E. subst g. exfalso. apply Hg. reflexivity.
Qed.

Lemma init_attributes_is_ret (cls : SourceClass) (kw : SourceDict) :
  span_needs_zfield kw = false -> kw K_legend = None ->
  is_ret (init_attributes cls kw) = true.
Proof.
  intros Hpass Hleg. unfold init_attributes, init_cmap. rewrite Hpass, Hleg. reflexivity.
Qed.

(** A source without a legend that passes the span check and is not loaded
    at once is constructed, in any environment. *)
Lemma init_is_ret (cls : SourceClass) (kw : SourceDict) (w : World) :
  span_needs_zfield kw = false -> kw K_legend = None -> eager kw = false ->
  is_ret (fst (__init__ cls kw w)) = true.
Proof.
  intros Hpass Hleg Hlazy. rewrite init_unfold.
  pose proof (init_attributes_is_ret cls kw Hpass Hleg) as Hret.
  destruct (init_attributes cls kw); [|discriminate].
  rewrite Hlazy. reflexivity.
Qed.

(** C6.  The min/max span is the literal ['min/max'].  With that span, a
    geometry type other than ['raster'] and no zfield, the constructor raises
    its [ValueError] before anything else happens.  With the same span and
    either geometry type ['raster'] or a zfield, the constructor does not
    raise it: the check passes, an exception can then come only from the
    legend block or from the [load] of a source that loads at once, and a
    source without a legend that is not loaded at once is returned. *)
Theorem span_check_min_max (cls : SourceClass) (kw : SourceDict) (w : World) :
  kw K_span = Some (SpanName "min/max") ->
  (kw K_zfield = None -> kw K_geometry_type <> Some "raster" ->
   __init__ cls kw w = (Raise (ValueError zfield_message), w))
  /\ (kw K_geometry_type = Some "raster" \/ kw K_zfield <> None ->
      span_needs_zfield kw = false
      /\ (forall e, init_attributes cls kw = Raise e -> init_cmap kw = Raise e)
      /\ (kw K_legend = None -> eager kw = false ->
          exists self, __init__ cls kw w = (Ret self, w))
      /\ (forall e w', __init__ cls kw w = (Raise e, w') ->
          init_cmap kw = Raise e
          \/ (eager kw = true
              /\ exists self, init_attributes cls kw = Ret self
                              /\ fst (load (self, w)) = Raise e))).
Proof.
  intros Hspan. split.
  - intros Hz Hg. rewrite init_unfold. unfold init_attributes.
    rewrite (proj2 (span_needs_zfield_true kw)) by auto. reflexivity.
  - intros Hok.
    assert (Hpass : span_needs_zfield kw = false).
    { destruct (span_needs_zfield kw) eqn:E; [|reflexivity].
      apply span_needs_zfield_true in E as (_ & Hz & Hg).
      destruct Hok; contradiction. }
    assert (Hlegend : forall e, init_attributes cls kw = Raise e -> init_cmap kw = Raise e).
    { intros e. unfold init_attributes. rewrite Hpass.
      destruct (init_cmap kw); simpl; [discriminate | congruence]. }
    split; [exact Hpass|]. split; [exact Hlegend|]. split.
    + intros Hleg Heager. rewrite init_unfold. unfold init_attributes.
      rewrite Hpass, Heager. unfold init_cmap. rewrite Hleg. simpl. eauto.
    + intros e w' Hrun. rewrite init_unfold in Hrun.
      destruct (init_attributes cls kw) as [self|e0] eqn:Hinit.
      * right. destruct (eager kw); [|discriminate].
        split; [reflexivity|]. exists self. split; [reflexivity|].
        unfold call_method in Hrun.
        destruct (load (self, w)) as [[[]|e1] [s1 w1]]; [discriminate|].
        inversion Hrun; subst. reflexivity.
      * left. inversion Hrun; subst. apply Hlegend. reflexivity.
Qed.

End SpanCheck.

Section ExtentResolver.
Context `{Externals}.

Lemma full_extent_miss (self : MapSource) (e : Extent) :
  compute_full_extent self = Ret e -> full_extent self None = (Ret e, Some e).
Proof. intros Hc. unfold full_extent. rewrite Hc. reflexivity. Qed.

Lemma full_extent_ignores_flag (self : MapSource) (b : bool) (memo : option Extent) :
  full_extent (set_is_loaded b self) memo = full_extent self memo.
Proof. reflexivity. Qed.

(** C4.  When the extent of a source that holds a data object is computed
    (nothing memoized yet), a raster source answers with the minimum of the
    [x] and [y] coordinates followed by their maximum, and a vector source
    with [total_bounds] of the column named by [geometry_field], taken from
    the frame itself or, for a spatialpandas frame, from its conversion with
    [to_geopandas]; the answer is memoized.  This holds for every such source,
    loaded ones included. *)
Theorem full_extent_computed (self : MapSource) (d : DataObj) :
  data self = PObj d ->
  (forall xmin ymin xmax ymax : PyFloat,
      klass self = RasterSourceClass ->
      coords_min d "x" = Ret xmin -> coords_min d "y" = Ret ymin ->
      coords_max d "x" = Ret xmax -> coords_max d "y" = Ret ymax ->
      full_extent self None
      = (Ret (xmin, ymin, xmax, ymax), Some (xmin, ymin, xmax, ymax)))
  /\ (forall (rows col : DataObj) (bounds : Extent),
      klass self = VectorSourceClass ->
      (if is_spatialpandas d then to_geopandas d = Ret rows else rows = d) ->
      getitem_column rows (geometry_field self) = Ret col ->
      total_bounds col = Ret bounds ->
      full_extent self None = (Ret bounds, Some bounds)).
Proof.
  intros Hdata. split.
  - intros xmin ymin xmax ymax Hk Hx0 Hy0 Hx1 Hy1. apply full_extent_miss.
    unfold compute_full_extent, raster_full_extent. rewrite Hk, Hdata.
    unfold mbind, res_bind. rewrite Hx0, Hy0, Hx1, Hy1. reflexivity.
  - intros rows col bounds Hk Hrows Hcol Hb. apply full_extent_miss.
    unfold compute_full_extent, vector_full_extent. rewrite Hk, Hdata.
    unfold mbind, res_bind. destruct (is_spatialpandas d).
    + rewrite Hrows, Hcol. exact Hb.
    + subst rows. rewrite Hcol. exact Hb.
Qed.

(** C5, as the code has it.  No [NotLoadedError] exists and [full_extent]
    never reads [is_loaded].  A source that holds no data object, as a
    file-backed source does before [load], fails on the request with
    [AttributeError] (raster, and the base class) or [TypeError] (vector) and
    memoizes nothing; a source that holds one answers as it would once
    loaded. *)
Theorem full_extent_before_load (self : MapSource) :
  (forall (b : bool) (memo : option Extent),
      full_extent (set_is_loaded b self) memo = full_extent self memo)
  /\ (data self = PNone ->
      exists e, full_extent self None = (Raise e, None)
                /\ exn_class e = match klass self with
                                 | VectorSourceClass => "TypeError"
                                 | _ => "AttributeError"
                                 end).
Proof.
  split; [intros b memo; apply full_extent_ignores_flag|].
  intros Hdata. unfold full_extent, compute_full_extent,
    raster_full_extent, vector_full_extent. rewrite Hdata.
  destruct (klass self); eexists; split; reflexivity.
Qed.

End ExtentResolver.

Section CatalogBuilder.
Context `{Externals}.

(** A source built by [from_obj] carries the key and the [config_path] of the
    dictionary it was built from. *)
Lemma from_obj_attributes (obj : SourceDict) (w w' : World) (so : MapSource) :
  from_obj obj w = (Ret so, w') ->
  key so = obj K_key /\ config_path so = obj K_config_path.
Proof.
  destruct (dict_has obj K_geometry_type) eqn:Hgt.
  - rewrite (from_obj_present obj w Hgt). intros Hrun.
    apply init_descriptor in Hrun as (self0 & Hinit & _ & Hattrs).
    apply init_attributes_returns in Hinit as (_ & _ & _ & _ & _ & Hkey & Hcfg & _).
    rewrite Hattrs. split; assumption.
  - rewrite (from_obj_undeclared obj w Hgt). discriminate.
Qed.

Lemma service_classes_type (t : string) (k : ServiceClass) (so : MapSource)
    (rs : list Opaque) :
  service_classes t = Ret k ->
  service_type {| service_class := k; source := so; renderers := rs |} = t.
Proof.
  unfold service_classes, service_type. simpl.
  destruct (String.eqb t "tile") eqn:E1.
  { intros Hk. inversion Hk; subst. symmetry. apply String.eqb_eq. exact E1. }
  destruct (String.eqb t "wms") eqn:E2.
  { intros Hk. inversion Hk; subst. symmetry. apply String.eqb_eq. exact E2. }
  destruct (String.eqb t "image") eqn:E3.
  { intros Hk. inversion Hk; subst. symmetry. apply String.eqb_eq. exact E3. }
  destruct (String.eqb t "geojson") eqn:E4.
  { intros Hk. inversion Hk; subst. symmetry. apply String.eqb_eq. exact E4. }
  discriminate.
Qed.

Lemma skip_wanted (contains : option string) (obj : SourceDict) (b : bool) :
  skip_service contains obj = Ret b -> wanted contains (obj K_key) = negb b.
Proof.
  unfold skip_service, wanted. destruct (truthy contains).
  - destruct (obj K_key) as [k|]; intros Hs; inversion Hs; subst.
    rewrite negb_involutive. reflexivity.
  - intros Hs. inversion Hs; subst. reflexivity.
Qed.

Lemma dict_set_other (k k' : kwkey) (v : option (kwtype k)) (d : SourceDict) :
  k <> k' -> dict_set k v d k' = d k'.
Proof.
  intros Hne. unfold dict_set. cbn [dict_get].
  destruct (kwkey_eq_dec k k'); [contradiction | reflexivity].
Qed.

Lemma dict_set_other_has (k k' : kwkey) (v : option (kwtype k)) (d : SourceDict) :
  k <> k' -> dict_has (dict_set k v d) k' = dict_has d k'.
Proof.
  intros Hne. unfold dict_has. rewrite (dict_set_other k k' v d Hne).
  unfold dict_set. cbn [dict_none].
  destruct (kwkey_eq_dec k k'); [contradiction | reflexivity].
Qed.

(** One pass of the inner loop, spelled out. *)
Lemma parse_service_run (cfg contains : option string) (a : nat) (so : MapSource)
    (t : string) (c : Catalog) (obj : SourceDict) :
  heap c !! a = Some obj ->
  parse_service cfg contains a so t c
  = let h1 := <[a := dict_set K_config_path cfg obj]> (heap c) in
    let c1 := {| heap := h1; world := world c; yielded := yielded c |} in
    match skip_service contains obj with
    | Raise e => (Raise e, c1)
    | Ret true => (Ret tt, c1)
    | Ret false =>
        match service_classes t with
        | Raise e => (Raise e, c1)
        | Ret k =>
            (Ret tt,
             {| heap := h1; world := world c;
                yielded := yielded c
                             ++ [{| service_class := k; source := so; renderers := [] |}] |})
        end
    end.
Proof.
  intros Hobj. unfold parse_service, heap_setitem, deref.
  unfold mbind, M_bind, modify, eval, yield. rewrite Hobj. simpl.
  rewrite lookup_insert_eq.
  change (skip_service contains (dict_set K_config_path cfg obj))
    with (skip_service contains obj).
  destruct (skip_service contains obj) as [[|]|e]; reflexivity.
Qed.

(** The inner loop over the service types of one source. *)
Lemma service_loop (cfg contains : option string) (a : nat) (so : MapSource) :
  forall (ts : list string) (c c' : Catalog) (r : res unit) (obj : SourceDict),
    heap c !! a = Some obj ->
    for_each ts (parse_service cfg contains a so) c = (r, c') ->
    exists (new : list MapService) (obj' : SourceDict),
      yielded c' = yielded c ++ new
      /\ Forall (fun svc => source svc = so) new
      /\ (forall b, b <> a -> heap c' !! b = heap c !! b)
      /\ heap c' !! a = Some obj'
      /\ (forall k, k <> K_config_path -> obj' k = obj k)
      /\ (r = Ret tt ->
          map service_type new = if wanted contains (obj K_key) then ts else []).
Proof.
  induction ts as [|t ts IH]; intros c c' r obj Hobj Hrun.
  - simpl in Hrun. inversion Hrun; subst. exists [], obj.
    rewrite app_nil_r. repeat split; auto.
    intros _. destruct (wanted contains (obj K_key)); reflexivity.
  - simpl in Hrun. unfold mbind, M_bind in Hrun.
    rewrite (parse_service_run cfg contains a so t c obj Hobj) in Hrun.
    cbv zeta in Hrun.
    set (obj1 := dict_set K_config_path cfg obj) in *.
    assert (Hold : forall (h : gmap nat SourceDict) b, b <> a ->
                     <[a := obj1]> h !! b = h !! b).
    { intros h b Hb. apply lookup_insert_ne. congruence. }
    assert (Hobj1 : forall k, k <> K_config_path -> obj1 k = obj k).
    { intros k Hk. apply dict_set_other. congruence. }
    destruct (skip_service contains obj) as [[|]|e] eqn:Hskip.
    + apply skip_wanted in Hskip. simpl in Hskip.
      eapply IH in Hrun; [|simpl; apply lookup_insert_eq].
      destruct Hrun as (new & obj' & Hy & Hsrc & Hother & Hat & Hagree & Hret).
      simpl in *. exists new, obj'. repeat split; auto.
      * intros b Hb. rewrite Hother by exact Hb. apply Hold. exact Hb.
      * intros k Hk. rewrite (Hagree k Hk). apply Hobj1. exact Hk.
      * intros Hr. rewrite (Hret Hr).
        change (obj1 K_key) with (obj K_key). rewrite Hskip. reflexivity.
    + apply skip_wanted in Hskip. simpl in Hskip.
      destruct (service_classes t) as [k|e] eqn:Hk.
      * eapply IH in Hrun; [|simpl; apply lookup_insert_eq].
        destruct Hrun as (new & obj' & Hy & Hsrc & Hother & Hat & Hagree & Hret).
        simpl in *.
        exists ({| service_class := k; source := so; renderers := [] |} :: new), obj'.
        repeat split; auto.
        -- rewrite Hy, <- app_assoc. reflexivity.
        -- intros b Hb. rewrite Hother by exact Hb. apply Hold. exact Hb.
        -- intros k0 Hk0. rewrite (Hagree k0 Hk0). apply Hobj1. exact Hk0.
        -- intros Hr. specialize (Hret Hr).
           change (obj1 K_key) with (obj K_key) in Hret.
           rewrite Hskip in *. simpl. rewrite Hret.
           rewrite (service_classes_type t k so [] Hk). reflexivity.
      * inversion Hrun; subst. exists [], obj1. simpl.
        rewrite app_nil_r. repeat split; auto.
        -- apply lookup_insert_eq.
        -- discriminate.
    + inversion Hrun; subst. exists [], obj1. simpl.
      rewrite app_nil_r. repeat split; auto.
      * apply lookup_insert_eq.
      * discriminate.
Qed.

Lemma described_of_source (so : MapSource) (new : list MapService) :
  Forall (fun svc => source svc = so) new ->
  map described new = map (fun t => (key so, t)) (map service_type new).
Proof.
  induction 1 as [|svc new Hsvc _ IH]; simpl; [reflexivity|].
  rewrite IH. unfold described. rewrite Hsvc. reflexivity.
Qed.

(** One pass of the outer loop: the source is built from the dictionary as it
    stands, then the inner loop runs. *)
Lemma parse_source_run (cfg contains : option string) (a : nat)
    (c c' : Catalog) (r : res unit) :
  parse_source cfg contains a c = (r, c') ->
  exists new : list MapService,
    yielded c' = yielded c ++ new
    /\ (forall b, b <> a -> heap c' !! b = heap c !! b)
    /\ listing (heap c') a = listing (heap c) a
    /\ Forall (fun svc => exists obj : SourceDict, heap c !! a = Some obj /\ built_from obj svc) new
    /\ (r = Ret tt -> map described new = expected contains (heap c) a)
    /\ (forall obj : SourceDict, heap c !! a = Some obj ->
        exists obj' : SourceDict,
          heap c' !! a = Some obj' /\ forall k, k <> K_config_path -> obj' k = obj k).
Proof.
  unfold parse_source. intros Hrun.
  assert (Hstop : forall e w, (r, c') = (Raise e, {| heap := heap c; world := w;
                                                     yielded := yielded c |}) ->
            exists new : list MapService,
              yielded c' = yielded c ++ new
              /\ (forall b, b <> a -> heap c' !! b = heap c !! b)
              /\ listing (heap c') a = listing (heap c) a
              /\ Forall (fun svc => exists obj : SourceDict, heap c !! a = Some obj
                                                /\ built_from obj svc) new
              /\ (r = Ret tt -> map described new = expected contains (heap c) a)
              /\ (forall obj : SourceDict, heap c !! a = Some obj ->
                  exists obj' : SourceDict,
                    heap c' !! a = Some obj'
                    /\ forall k, k <> K_config_path -> obj' k = obj k)).
  { intros e w He. inversion He; subst. exists []. simpl. rewrite app_nil_r.
    repeat split; auto; [discriminate|]. intros obj Hobj. exists obj. auto. }
  unfold mbind at 1 in Hrun. unfold M_bind at 1 in Hrun. unfold deref at 1 in Hrun.
  destruct (heap c !! a) as [obj|] eqn:Hobj.
  2:{ apply (Hstop (OtherError "ReferenceError" "no object at this address") (world c)).
      rewrite <- Hrun. destruct c; reflexivity. }
  unfold mbind at 1 in Hrun. unfold M_bind at 1 in Hrun.
  unfold in_catalog_world, zoom in Hrun.
  destruct (from_obj obj (world c)) as [[so|e] w1] eqn:Hbuild.
  2:{ apply (Hstop e w1). symmetry. exact Hrun. }
  set (c1 := {| heap := heap c; world := w1; yielded := yielded c |}) in *.
  unfold mbind at 1 in Hrun. unfold M_bind at 1 in Hrun. unfold deref in Hrun.
  change (heap c1) with (heap c) in Hrun. rewrite Hobj in Hrun.
  unfold mbind at 1 in Hrun. unfold M_bind at 1 in Hrun.
  unfold eval, dict_getitem, dict_has in Hrun.
  destruct (obj K_service_types) as [ts|] eqn:Hts.
  2:{ destruct (dict_none obj K_service_types).
      - apply (Hstop (TypeError "'NoneType' object is not iterable") w1).
        symmetry. exact Hrun.
      - apply (Hstop (KeyError "service_types") w1). symmetry. exact Hrun. }
  apply (service_loop cfg contains a so ts c1 c' r obj Hobj) in Hrun.
  destruct Hrun as (new & obj' & Hy & Hsrc & Hother & Hat & Hagree & Hret).
  exists new. change (heap c1) with (heap c) in *.
  change (yielded c1) with (yielded c) in *.
  split; [exact Hy|]. split; [exact Hother|]. split; [|split; [|split]].
  - unfold listing, entry_listing. rewrite Hat, Hobj.
    rewrite !Hagree by discriminate. reflexivity.
  - eapply List.Forall_impl; [|exact Hsrc]. intros svc Hsvc. simpl in Hsvc.
    exists obj. split; [reflexivity|].
    exists (world c), w1. rewrite Hsvc. exact Hbuild.
  - intros Hr. rewrite (described_of_source so new Hsrc), (Hret Hr).
    unfold expected, listing, entry_listing. rewrite Hobj, Hts.
    destruct (from_obj_attributes obj _ _ so Hbuild) as [Hk _]. rewrite Hk.
    destruct (wanted contains (obj K_key)); reflexivity.
  - intros obj0 Hobj0. inversion Hobj0; subst obj0. exists obj'. auto.
Qed.

Lemma expected_listing (contains : option string) (h h' : gmap nat SourceDict) :
  (forall a, listing h' a = listing h a) ->
  forall srcs, flat_map (expected contains h') srcs = flat_map (expected contains h) srcs.
Proof.
  intros Hl srcs. induction srcs as [|a srcs IH]; simpl; [reflexivity|].
  rewrite IH. unfold expected. rewrite Hl. reflexivity.
Qed.

(** The outer loop: what a run that returns has yielded. *)
Lemma catalog_loop (cfg contains : option string) :
  forall (srcs : list nat) (c c' : Catalog) (r : res unit),
    parse_sources srcs cfg contains c = (r, c') ->
    exists new : list MapService,
      yielded c' = yielded c ++ new
      /\ (forall a, listing (heap c') a = listing (heap c) a)
      /\ (r = Ret tt ->
          map described new = flat_map (expected contains (heap c)) srcs).
Proof.
  unfold parse_sources.
  induction srcs as [|a srcs IH]; intros c c' r Hrun; simpl in Hrun.
  - inversion Hrun; subst. exists []. rewrite app_nil_r. repeat split; auto.
  - unfold mbind, M_bind in Hrun.
    destruct (parse_source cfg contains a c) as [[[]|e] c1] eqn:Hone.
    + apply parse_source_run in Hone as (new1 & Hy1 & Hother & Hat & _ & Hret1 & _).
      assert (Hl1 : forall b, listing (heap c1) b = listing (heap c) b).
      { intros b. destruct (decide (b = a)) as [->|Hb]; [exact Hat|].
        unfold listing. rewrite (Hother b Hb). reflexivity. }
      apply IH in Hrun as (new2 & Hy2 & Hl2 & Hret2).
      exists (new1 ++ new2). repeat split.
      * rewrite Hy2, Hy1, app_assoc. reflexivity.
      * intros b. rewrite Hl2. apply Hl1.
      * intros Hr. rewrite map_app, (Hret1 eq_refl), (Hret2 Hr). simpl.
        rewrite (expected_listing contains (heap c) (heap c1) Hl1). reflexivity.
    + inversion Hrun; subst.
      apply parse_source_run in Hone as (new1 & Hy1 & Hother & Hat & _ & _ & _).
      exists new1. repeat split; auto.
      * intros b. destruct (decide (b = a)) as [->|Hb]; [exact Hat|].
        unfold listing. rewrite (Hother b Hb). reflexivity.
      * discriminate.
Qed.

(** The outer loop over a list that names every dictionary once: each source
    was built from a dictionary as [parse_sources] received it. *)
Lemma catalog_loop_fresh (cfg contains : option string) :
  forall (srcs : list nat) (c c' : Catalog) (r : res unit),
    List.NoDup srcs ->
    parse_sources srcs cfg contains c = (r, c') ->
    exists new : list MapService,
      yielded c' = yielded c ++ new
      /\ Forall (fun svc => exists (a : nat) (obj : SourceDict), In a srcs /\ heap c !! a = Some obj
                                         /\ built_from obj svc) new.
Proof.
  unfold parse_sources.
  induction srcs as [|a srcs IH]; intros c c' r Hnd Hrun; simpl in Hrun.
  - inversion Hrun; subst. exists []. rewrite app_nil_r. split; auto.
  - inversion Hnd as [|? ? Hfresh Hnd']; subst.
    unfold mbind, M_bind in Hrun.
    destruct (parse_source cfg contains a c) as [[[]|e] c1] eqn:Hone;
      apply parse_source_run in Hone as (new1 & Hy1 & Hother & _ & Hbuilt & _ & _).
    + apply (IH _ _ _ Hnd') in Hrun as (new2 & Hy2 & Hb2).
      exists (new1 ++ new2). split.
      * rewrite Hy2, Hy1, app_assoc. reflexivity.
      * apply Forall_app. split.
        -- eapply List.Forall_impl; [|exact Hbuilt].
           intros svc (obj & Hobj & Hsvc). exists a, obj. simpl. auto.
        -- eapply List.Forall_impl; [|exact Hb2].
           intros svc (b & obj & Hin & Hobj & Hsvc). exists b, obj.
           split; [right; exact Hin|]. split; [|exact Hsvc].
           rewrite <- Hobj. symmetry. apply Hother. intros ->. contradiction.
    + inversion Hrun; subst. exists new1. split; [exact Hy1|].
      eapply List.Forall_impl; [|exact Hbuilt].
      intros svc (obj & Hobj & Hsvc). exists a, obj. simpl. auto.
Qed.

Lemma filter_same_key (keep : option string -> bool) (k : option string)
    (ts : list string) :
  List.filter (fun d : option string * string => keep (fst d)) (map (fun t => (k, t)) ts)
  = if keep k then map (fun t => (k, t)) ts else [].
Proof.
  induction ts as [|t ts IH]; simpl.
  - destruct (keep k); reflexivity.
  - rewrite IH. destruct (keep k); reflexivity.
Qed.

Lemma filter_flat_map {A B} (f : B -> bool) (g : A -> list B) (l : list A) :
  List.filter f (flat_map g l) = flat_map (fun x => List.filter f (g x)) l.
Proof.
  induction l as [|x l IH]; simpl; [reflexivity|].
  rewrite List.filter_app, IH. reflexivity.
Qed.

(** With a filter, the expected services are those of the unfiltered catalog
    whose key contains the filter. *)
Lemma expected_filtered (contains : option string) (h : gmap nat SourceDict)
    (srcs : list nat) :
  flat_map (expected contains h) srcs
  = List.filter (fun d => wanted contains (fst d)) (flat_map (expected None h) srcs).
Proof.
  rewrite filter_flat_map. apply flat_map_ext. intros a.
  unfold expected. destruct (listing h a) as [[k types]|]; [|reflexivity].
  change (wanted None k) with true. cbv iota.
  apply eq_sym, (filter_same_key (wanted contains) k).
Qed.

Lemma expected_unfiltered_length (contains : option string) (h : gmap nat SourceDict)
    (n : nat) :
  truthy contains = false ->
  forall srcs : list nat,
    (forall a, In a srcs ->
       exists (obj : SourceDict) (ts : list string), h !! a = Some obj /\ obj K_service_types = Some ts /\ length ts = n) ->
    length (flat_map (expected contains h) srcs) = (length srcs * n)%nat.
Proof.
  intros Hno. induction srcs as [|a srcs IH]; intros Hall; simpl; [reflexivity|].
  rewrite length_app, IH by (intros b Hb; apply Hall; right; exact Hb).
  destruct (Hall a (or_introl eq_refl)) as (obj & ts & Hobj & Hts & Hlen).
  unfold expected, listing, entry_listing, wanted.
  rewrite Hobj, Hts, Hno. simpl. rewrite length_map, Hlen. reflexivity.
Qed.

Lemma service_loop_completes (cfg contains : option string) (a : nat) (so : MapSource) :
  forall (ts : list string) (c : Catalog) (obj : SourceDict),
    heap c !! a = Some obj ->
    Forall (fun t => is_ret (service_classes t) = true) ts ->
    (truthy contains = true -> obj K_key <> None) ->
    fst (for_each ts (parse_service cfg contains a so) c) = Ret tt.
Proof.
  induction ts as [|t ts IH]; intros c obj Hobj Hvalid Hkey; [reflexivity|].
  inversion Hvalid as [|? ? Ht Hts]; subst.
  simpl. unfold mbind, M_bind.
  rewrite (parse_service_run cfg contains a so t c obj Hobj). cbv zeta.
  assert (Hskip : exists b, skip_service contains obj = Ret b).
  { unfold skip_service. destruct (truthy contains); [|eauto].
    destruct (obj K_key) as [k|]; [eauto|]. exfalso. apply Hkey; reflexivity. }
  destruct Hskip as [b Hskip]. rewrite Hskip.
  destruct b.
  - eapply IH; [simpl; apply lookup_insert_eq | exact Hts | exact Hkey].
  - destruct (service_classes t) as [k|e]; [|discriminate].
    eapply IH; [simpl; apply lookup_insert_eq | exact Hts | exact Hkey].
Qed.

Lemma parse_source_completes (cfg contains : option string) (a : nat) (c : Catalog)
    (obj : SourceDict) (ts : list string) :
  heap c !! a = Some obj ->
  obj K_service_types = Some ts ->
  Forall (fun t => is_ret (service_classes t) = true) ts ->
  (truthy contains = true -> obj K_key <> None) ->
  is_ret (fst (from_obj obj (world c))) = true ->
  fst (parse_source cfg contains a c) = Ret tt.
Proof.
  intros Hobj Hts Hvalid Hkey Hbuild. unfold parse_source.
  unfold mbind at 1. unfold M_bind at 1. unfold deref at 1. rewrite Hobj.
  unfold mbind at 1. unfold M_bind at 1. unfold in_catalog_world, zoom.
  destruct (from_obj obj (world c)) as [[so|e] w1]; [|discriminate].
  unfold mbind at 1. unfold M_bind at 1. unfold deref. simpl. rewrite Hobj.
  unfold mbind at 1. unfold M_bind at 1. unfold eval.
  rewrite (dict_getitem_present _ _ _ (dict_has_value _ _ _ Hts)), Hts.
  eapply service_loop_completes; [simpl; exact Hobj | exact Hvalid | exact Hkey].
Qed.

(** Over well-formed dictionaries the catalog loop reaches its end. *)
Lemma parse_sources_completes (cfg contains : option string) :
  forall (srcs : list nat) (c : Catalog),
    (forall a, In a srcs -> well_formed_at contains (heap c) a) ->
    fst (parse_sources srcs cfg contains c) = Ret tt.
Proof.
  unfold parse_sources.
  induction srcs as [|a srcs IH]; intros c Hwf; [reflexivity|].
  simpl. unfold mbind, M_bind.
  destruct (Hwf a (or_introl eq_refl)) as (obj & ts & Hobj & Hts & Hvalid & Hkey & Hbuild).
  pose proof (parse_source_completes cfg contains a c obj ts Hobj Hts Hvalid Hkey
                (Hbuild obj (world c) (fun k _ => eq_refl))) as Hdone.
  destruct (parse_source cfg contains a c) as [r c1] eqn:Hone. simpl in Hdone. subst r.
  apply parse_source_run in Hone as (_ & _ & Hother & _ & _ & _ & Hat).
  apply IH. intros b Hb.
  destruct (decide (b = a)) as [->|Hne].
  - destruct (Hat obj Hobj) as (obj1 & Hobj1 & Hagree).
    exists obj1, ts. split; [exact Hobj1|].
    split; [rewrite Hagree by discriminate; exact Hts|].
    split; [exact Hvalid|].
    split; [rewrite Hagree by discriminate; exact Hkey|].
    intros obj' w Hagree'. apply Hbuild. intros k Hk.
    rewrite (Hagree' k Hk). apply Hagree. exact Hk.
  - destruct (Hwf b (or_intror Hb)) as (objb & tsb & Hobjb & Hrest).
    exists objb, tsb. split; [|exact Hrest].
    rewrite (Hother b Hne). exact Hobjb.
Qed.

(** C7.  A run of [parse_sources] that reaches its end has yielded, for each
    source of the list in turn, one service per declared service type: with
    no filter that is every (source, service type) pair, so N sources with S
    service types each give N times S services; with a filter it is exactly
    those of the pairs whose source key contains the filter string. *)
Theorem parse_sources_yields (srcs : list nat) (cfg contains : option string)
    (c c' : Catalog) :
  yielded c = [] ->
  parse_sources srcs cfg contains c = (Ret tt, c') ->
  map described (yielded c') = flat_map (expected contains (heap c)) srcs
  /\ (forall n : nat,
        truthy contains = false ->
        (forall a, In a srcs ->
           exists (obj : SourceDict) (ts : list string), heap c !! a = Some obj
                          /\ obj K_service_types = Some ts /\ length ts = n) ->
        length (yielded c') = (length srcs * n)%nat)
  /\ (forall s : string,
        contains = Some s -> truthy_str s = true ->
        map described (yielded c')
        = List.filter
            (fun d => match fst d with Some k => str_contains s k | None => false end)
            (flat_map (expected None (heap c)) srcs)).
Proof.
  intros Hempty Hrun.
  apply catalog_loop in Hrun as (new & Hy & _ & Hret).
  rewrite Hempty in Hy. simpl in Hy. rewrite Hy.
  specialize (Hret eq_refl). split; [exact Hret|]. split.
  - intros n Hno Hall. rewrite <- (length_map described), Hret.
    apply expected_unfiltered_length; assumption.
  - intros s -> Hs. rewrite Hret, expected_filtered.
    apply List.filter_ext. intros [k t]. unfold wanted. simpl. rewrite Hs. reflexivity.
Qed.

(** C9, as the code has it.  One pass of the outer loop builds its source
    from the dictionary before [config_path] is assigned into it, so the
    source carries the [config_path] the dictionary held at that moment,
    whatever the argument is.  When the list names every dictionary once,
    that is what the dictionary held when [parse_sources] was called, and
    [load] resolves the path of such a source through the directory of the
    configuration file only if that entry was a non-empty string. *)
Theorem parse_sources_config_path (cfg contains : option string) :
  (forall (a : nat) (c c' : Catalog) (r : res unit),
      parse_source cfg contains a c = (r, c') ->
      exists new : list MapService,
        yielded c' = yielded c ++ new
        /\ Forall (fun svc => exists obj : SourceDict,
                     heap c !! a = Some obj
                     /\ config_path (source svc) = obj K_config_path) new)
  /\ (forall (srcs : list nat) (c c' : Catalog) (r : res unit),
      List.NoDup srcs ->
      yielded c = [] ->
      parse_sources srcs cfg contains c = (r, c') ->
      Forall (fun svc => exists (a : nat) (obj : SourceDict),
                In a srcs /\ heap c !! a = Some obj
                /\ config_path (source svc) = obj K_config_path
                /\ (truthy (obj K_config_path) = false ->
                    resolve_data_path (source svc)
                    = data_path_from_filepath (source svc)))
             (yielded c')).
Proof.
  split.
  - intros a c c' r Hrun.
    apply parse_source_run in Hrun as (new & Hy & _ & _ & Hbuilt & _ & _).
    exists new. split; [exact Hy|].
    eapply List.Forall_impl; [|exact Hbuilt].
    intros svc (obj & Hobj & w & w' & Hfrom). exists obj. split; [exact Hobj|].
    apply (from_obj_attributes obj w w' _ Hfrom).
  - intros srcs c c' r Hnd Hempty Hrun.
    apply catalog_loop_fresh in Hrun as (new & Hy & Hbuilt); [|exact Hnd].
    rewrite Hempty in Hy. simpl in Hy. rewrite Hy.
    eapply List.Forall_impl; [|exact Hbuilt].
    intros svc (a & obj & Hin & Hobj & w & w' & Hfrom).
    exists a, obj. split; [exact Hin|]. split; [exact Hobj|].
    destruct (from_obj_attributes obj w w' _ Hfrom) as [_ Hcfg].
    split; [exact Hcfg|].
    intros Hfalsy. unfold resolve_data_path. rewrite Hcfg, Hfalsy. reflexivity.
Qed.

End CatalogBuilder.

(** * Further properties of the lifecycle *)

Section BindInversion.
Context {S : Type}.

(** A sequence that raises either raised in its first part or went through
    it and raised later. *)
Lemma bind_raised {A B} (m : M S A) (k : A -> M S B) (s s' : S) (e : exn) :
  (m ≫= k) s = (Raise e, s') ->
  m s = (Raise e, s') \/ exists a s1, m s = (Ret a, s1) /\ k a s1 = (Raise e, s').
Proof.
  unfold mbind, M_bind. destruct (m s) as [[a|e0] s1]; intros Hrun.
  - right. exists a, s1. split; [reflexivity | exact Hrun].
  - left. inversion Hrun; subst. reflexivity.
Qed.

Lemma for_each_ext {A} (l : list A) (f g : A -> M S unit) :
  (forall x s, f x s = g x s) -> forall s, for_each l f s = for_each l g s.
Proof.
  intros Hfg. induction l as [|x l IH]; intros s; simpl; [reflexivity|].
  unfold mbind, M_bind. rewrite Hfg. destruct (g x s) as [[[]|e] s1]; [apply IH | reflexivity].
Qed.

Lemma bind_ext {A B} (m : M S A) (k1 k2 : A -> M S B) (s : S) :
  (forall a s1, k1 a s1 = k2 a s1) -> (m ≫= k1) s = (m ≫= k2) s.
Proof.
  intros Hk. unfold mbind, M_bind. destruct (m s) as [[a|e] s1]; [apply Hk | reflexivity].
Qed.

End BindInversion.

Section PathResolution.
Context `{Externals}.

Lemma cwd_restored_preorder : PreOrder cwd_restored.
Proof.
  split.
  - intros w _. reflexivity.
  - intros a b c Hab Hbc Ha. unfold cwd_restored in *.
    rewrite Hbc, Hab; auto. rewrite Hab; auto.
Qed.

Lemma keeps_cwd_preorder : PreOrder keeps_cwd.
Proof.
  destruct cwd_restored_preorder as [Hr Ht]. split.
  - intros st. apply Hr.
  - intros a b c. apply Ht.
Qed.

Lemma same_flag_preorder : PreOrder same_flag.
Proof.
  split.
  - intros st. reflexivity.
  - intros a b c Hab Hbc. unfold same_flag in *. congruence.
Qed.

Lemma set_cwd_back (w : World) (d : string) : set_cwd (cwd w) (set_cwd d w) = w.
Proof. destruct w. reflexivity. Qed.

(** The configuration branch: the file is resolved against the directory of
    the configuration file, and the process is back where it started. *)
Lemma data_path_from_config_run (self : MapSource) (cfg : string) (w : World) :
  let config_dir := path_abspath (cwd w) (path_dirname cfg) in
  dir_exists config_dir = true ->
  dir_exists (cwd w) = true ->
  data_path_from_config self cfg w
  = match filepath self with
    | Some fp => (Ret (path_abspath config_dir (path_expanduser fp)), w)
    | None =>
        (Raise (TypeError "expected str, bytes or os.PathLike object, not NoneType"), w)
    end.
Proof.
  intros config_dir Hdir Hcwd.
  unfold data_path_from_config, os_chdir, os_getcwd, abspath_of_filepath, try_finally.
  unfold mbind, M_bind, mret, M_ret, gets, modify, raise. simpl.
  fold config_dir. rewrite Hdir. simpl. rewrite Hcwd.
  destruct (filepath self); simpl; rewrite set_cwd_back; reflexivity.
Qed.

Lemma data_path_from_config_no_dir (self : MapSource) (cfg : string) (w : World) :
  dir_exists (path_abspath (cwd w) (path_dirname cfg)) = false ->
  exists e, data_path_from_config self cfg w = (Raise e, w)
            /\ exn_class e = "FileNotFoundError".
Proof.
  intros Hdir.
  unfold data_path_from_config, os_chdir, os_getcwd.
  unfold mbind, M_bind, gets, raise. simpl. rewrite Hdir.
  eexists. split; reflexivity.
Qed.

Lemma resolve_data_path_cwd (self : MapSource) (w : World) :
  cwd_restored w (snd (resolve_data_path self w)).
Proof.
  intros Hcwd. unfold resolve_data_path.
  destruct (truthy (config_path self)).
  - destruct (dir_exists (path_abspath (cwd w)
                (path_dirname (default EmptyString (config_path self))))) eqn:Hdir.
    + rewrite data_path_from_config_run by assumption.
      destruct (filepath self); reflexivity.
    + destruct (data_path_from_config_no_dir self _ w Hdir) as (e & -> & _). reflexivity.
  - unfold data_path_from_filepath, abspath_of_filepath.
    destruct (filepath self) as [fp|]; [|reflexivity].
    destruct (startswith fp "zip"); [reflexivity|].
    destruct (path_isabs fp); reflexivity.
Qed.

(** X1.  With a configuration path and directories that exist, the data path
    is the file path resolved against the directory of the configuration
    file, nothing is printed and the working directory is restored, also when
    the file path is missing and the resolution raises; this branch comes
    first, so a ['zip...'] or absolute file path goes through it too.  If the
    directory of the configuration file does not exist, [os.chdir] raises
    [FileNotFoundError] and nothing has changed. *)
Theorem config_path_resolution (self : MapSource) (cfg : string) (w : World) :
  config_path self = Some cfg ->
  truthy_str cfg = true ->
  let config_dir := path_abspath (cwd w) (path_dirname cfg) in
  (dir_exists config_dir = true -> dir_exists (cwd w) = true ->
   forall fp, filepath self = Some fp ->
     resolve_data_path self w
     = (Ret (path_abspath config_dir (path_expanduser fp)), w))
  /\ (dir_exists config_dir = true -> dir_exists (cwd w) = true ->
      filepath self = None ->
      exists e, resolve_data_path self w = (Raise e, w) /\ exn_class e = "TypeError")
  /\ (dir_exists config_dir = false ->
      exists e, resolve_data_path self w = (Raise e, w)
                /\ exn_class e = "FileNotFoundError").
Proof.
  intros Hcfg Htruthy config_dir.
  assert (Hbranch : resolve_data_path self w = data_path_from_config self cfg w).
  { unfold resolve_data_path. rewrite Hcfg. simpl. rewrite Htruthy. reflexivity. }
  rewrite Hbranch. split; [|split].
  - intros Hdir Hcwd fp Hfp.
    rewrite data_path_from_config_run by assumption. rewrite Hfp. reflexivity.
  - intros Hdir Hcwd Hfp.
    rewrite data_path_from_config_run by assumption. rewrite Hfp.
    eexists. split; reflexivity.
  - intros Hdir. exact (data_path_from_config_no_dir self cfg w Hdir).
Qed.

End PathResolution.

#[global] Existing Instance cwd_restored_preorder.
#[global] Existing Instance keeps_cwd_preorder.
#[global] Existing Instance same_flag_preorder.

Section LoadFrames.
Context `{Externals}.

Lemma maintains_print_cwd (line : string) : maintains keeps_cwd (in_world (print line)).
Proof. intros [self w] _. reflexivity. Qed.

Lemma maintains_modify_cwd (f : MapSource -> MapSource) :
  maintains keeps_cwd (modify_self f).
Proof. intros [self w] _. reflexivity. Qed.

Lemma maintains_resolve_cwd (self : MapSource) :
  maintains keeps_cwd (in_world (resolve_data_path self)).
Proof.
  intros [s w]. unfold in_world, zoom, keeps_cwd. simpl.
  pose proof (resolve_data_path_cwd self w) as Hc.
  destruct (resolve_data_path self w). exact Hc.
Qed.

Lemma maintains_in_world_flag {A} (m : M World A) : maintains same_flag (in_world m).
Proof. intros [self w]. unfold in_world, zoom. simpl. destruct (m w). reflexivity. Qed.

Lemma maintains_set_data_flag (d : pyval) : maintains same_flag (modify_self (set_data d)).
Proof. intros [self w]. reflexivity. Qed.

Lemma maintains_set_overviews_flag (v : pyval) :
  maintains same_flag (modify_self (set_overviews v)).
Proof. intros [self w]. reflexivity. Qed.

End LoadFrames.

Ltac frame_step :=
  first
    [ maintains_step
    | apply maintains_print_cwd
    | apply maintains_modify_cwd
    | apply maintains_resolve_cwd
    | apply maintains_in_world_flag
    | apply maintains_set_data_flag
    | apply maintains_set_overviews_flag ].

Ltac solve_frame := repeat frame_step.

Section LoadOutcome.
Context `{Externals}.

Lemma apply_transforms_cwd : maintains keeps_cwd _apply_transforms.
Proof. unfold _apply_transforms, apply_transform, transform_overview. solve_frame. Qed.

Lemma load_cwd : maintains keeps_cwd load.
Proof.
  unfold load, _finish_load. solve_frame.
  all: apply apply_transforms_cwd.
Qed.

(** X2.  [load] leaves the process in the working directory it started in,
    whether it returns or raises, provided that directory can be entered. *)
Theorem load_restores_cwd (self : MapSource) (w : World) :
  dir_exists (cwd w) = true ->
  cwd (snd (snd (load (self, w)))) = cwd w.
Proof. intros Hcwd. apply (load_cwd (self, w)). exact Hcwd. Qed.

Lemma apply_transforms_flag : maintains same_flag _apply_transforms.
Proof. unfold _apply_transforms, apply_transform, transform_overview. solve_frame. Qed.

Lemma finish_load_raised (st st' : ObjState) (e : exn) :
  _finish_load st = (Raise e, st') -> is_loaded (fst st') = is_loaded (fst st).
Proof.
  unfold _finish_load. intros Hrun.
  apply bind_raised in Hrun as [Hget|(self & st1 & Hget & Hrun)];
    unfold get_self, gets in Hget; [discriminate|].
  inversion Hget; subst; clear Hget.
  destruct (is_loaded (fst st1)) eqn:Hflag; [discriminate|].
  apply bind_raised in Hrun as [Hpipe|([] & st2 & _ & Hset)].
  - pose proof (apply_transforms_flag st1) as Hf. rewrite Hpipe in Hf.
    unfold same_flag in Hf. simpl in Hf. congruence.
  - discriminate.
Qed.

Lemma load_raised (st st' : ObjState) (e : exn) :
  load st = (Raise e, st') -> is_loaded (fst st') = false.
Proof.
  unfold load. intros Hrun.
  apply bind_raised in Hrun as [Hget|(self & st1 & Hget & Hrun)];
    unfold get_self, gets in Hget; [discriminate|].
  inversion Hget; subst; clear Hget.
  destruct (is_loaded (fst st1)) eqn:Hflag; [discriminate|].
  match type of Hrun with
  | (?m ≫= _) _ = _ =>
      assert (Hm : maintains same_flag m) by solve_frame
  end.
  apply bind_raised in Hrun as [Hraise|(d & st2 & Hd & Hrun)].
  { specialize (Hm st1). rewrite Hraise in Hm. unfold same_flag in Hm. simpl in Hm.
    congruence. }
  specialize (Hm st1). rewrite Hd in Hm. unfold same_flag in Hm. simpl in Hm.
  match type of Hrun with
  | (?m ≫= _) _ = _ =>
      assert (Hm2 : maintains same_flag m) by solve_frame
  end.
  apply bind_raised in Hrun as [Hraise|(d' & st3 & Hd' & Hrun)].
  { specialize (Hm2 st2). rewrite Hraise in Hm2. unfold same_flag in Hm2. simpl in Hm2.
    congruence. }
  specialize (Hm2 st2). rewrite Hd' in Hm2. unfold same_flag in Hm2. simpl in Hm2.
  apply bind_raised in Hrun as [Hraise|([] & st4 & Hset & Hrun)]; [discriminate|].
  unfold modify_self, modify in Hset. inversion Hset; subst; clear Hset.
  apply finish_load_raised in Hrun. simpl in Hrun. congruence.
Qed.

(** X3.  After [load], the source is marked loaded exactly when [load]
    returned: a [load] that raises, at whatever point, leaves [is_loaded]
    false. *)
Theorem load_flag_tells_outcome (st : ObjState) :
  is_loaded (fst (snd (load st))) = is_ret (fst (load st)).
Proof.
  destruct (load st) as [[[]|e] st'] eqn:Hrun; simpl.
  - exact (load_marks_loaded _ _ Hrun).
  - exact (load_raised _ _ _ Hrun).
Qed.

(** X4.  A [load] that fails before the transforms leaves the instance as it
    was: when the field projection of in-memory data raises, nothing at all
    has changed; when the loader raises, only the lines of the path
    resolution have been printed. *)
Theorem load_early_failure (self : MapSource) (w : World) (e : exn) :
  is_loaded self = false ->
  (forall flds,
      data self <> PNone -> fields self = Some flds -> flds <> [] ->
      project_fields (data self) flds = Raise e ->
      load (self, w) = (Raise e, (self, w)))
  /\ (forall (p : string) (w1 : World) (loader : string -> res DataObj),
      data self = PNone ->
      resolve_data_path self w = (Ret p, w1) ->
      load_func self = Ret loader ->
      loader p = Raise e ->
      load (self, w) = (Raise e, (self, w1))).
Proof.
  intros Hflag. split.
  - intros flds Hdata Hfields Hne Hproj. unfold load.
    unfold mbind, M_bind, mret, M_ret, get_self, gets, eval. cbn [fst snd].
    rewrite Hflag, Hfields.
    destruct flds as [|f fl]; [contradiction|]. cbn [truthy_list default].
    unfold id.
    destruct (data self) eqn:Hd; [contradiction| |]; rewrite Hproj; reflexivity.
  - intros p w1 loader Hdata Hpath Hfunc Hload. unfold load.
    unfold mbind, M_bind, fmap, M_fmap, get_self, gets, eval, in_world, zoom.
    cbn [fst snd]. rewrite Hflag, Hdata. cbn [fst snd]. rewrite Hpath.
    rewrite Hfunc, Hload. reflexivity.
Qed.

End LoadOutcome.

Section PipelineFailure.
Context `{Externals}.

(** X5.  A step whose name the registry does not resolve stops the pipeline:
    the steps before it have run, its line has been printed, neither the data
    nor the overviews have been touched by it, and no later step runs. *)
Theorem unresolved_step_stops_pipeline (ts1 ts2 : list TransformStep)
    (t : TransformStep) (st : ObjState) (s1 : MapSource) (w1 : World) (e : exn) :
  for_each ts1 apply_transform st = (Ret tt, (s1, w1)) ->
  get_transform_by_name (t_name t) = Raise e ->
  for_each (ts1 ++ t :: ts2) apply_transform st
  = (Raise e, (s1, printed [applying_line t] w1)).
Proof.
  intros Hbefore Hreg. rewrite for_each_app.
  rewrite (bind_run _ _ _ _ _ Hbefore). simpl.
  unfold mbind at 1. unfold M_bind at 1.
  unfold apply_transform. unfold_monad. simpl. rewrite Hreg. reflexivity.
Qed.

(** The inner loop of a data transform, run over a stretch of the entries:
    what lies before and after the stretch stays as it is. *)
Lemma overview_loop_stretch (func : callable) (args : Kwargs) :
  forall (todo todo' done rest : list (level * pyval)) (self : MapSource) (w : World),
    overviews self = PDict (done ++ todo ++ rest) ->
    List.NoDup (map fst (done ++ todo ++ rest)) ->
    Forall2 (fun e e' => fst e' = fst e /\ func (snd e) args = Ret (snd e')) todo todo' ->
    for_each todo (transform_overview func args) (self, w)
    = (Ret tt, (set_overviews (PDict (done ++ todo' ++ rest)) self, w)).
Proof.
  induction todo as [|[k v] todo IH]; intros todo' done rest self w Hov Hnd Hall.
  - inversion Hall; subst. simpl in *. unfold_monad.
    destruct self; simpl in *. subst. reflexivity.
  - inversion Hall as [|? [k' v'] ? todo1 [Hk Hv] Hrest]; subst. simpl in Hk, Hv. subst k'.
    simpl. unfold_monad. simpl. rewrite Hv. simpl. rewrite Hov. simpl.
    assert (Hfresh : ~ In k (map fst done)).
    { rewrite map_app in Hnd. simpl in Hnd. apply NoDup_remove_2 in Hnd.
      intros Hin. apply Hnd. apply in_or_app. left. exact Hin. }
    rewrite assoc_set_middle by exact Hfresh.
    specialize (IH todo1 (done ++ [(k, v')]) rest
                  (set_overviews (PDict (done ++ (k, v') :: todo ++ rest)) self) w).
    rewrite <- !app_assoc in IH. simpl in IH.
    rewrite IH; [reflexivity | reflexivity | | exact Hrest].
    rewrite !map_app in *. simpl in *. rewrite ?map_app in *. exact Hnd.
Qed.

(** X6.  A data transform that fails on an overview entry leaves the source
    half-transformed: [self.data] already holds the new data, the entries
    before the failing one are transformed, the failing entry and those after
    it are as they were. *)
Theorem data_step_partial_failure (trans : TransformStep) (func : callable)
    (self : MapSource) (w : World) (d v : pyval) (k : level)
    (before before' rest : list (level * pyval)) (e : exn) :
  data_step trans ->
  get_transform_by_name (t_name trans) = Ret func ->
  func (data self) (default empty_args (t_args trans)) = Ret d ->
  overviews self = PDict (before ++ (k, v) :: rest) ->
  List.NoDup (map fst (before ++ (k, v) :: rest)) ->
  Forall2 (fun x x' => fst x' = fst x /\
                       func (snd x) (default empty_args (t_args trans)) = Ret (snd x'))
          before before' ->
  func v (default empty_args (t_args trans)) = Raise e ->
  apply_transform trans (self, w)
  = (Raise e, (set_overviews (PDict (before' ++ (k, v) :: rest)) (set_data d self),
               printed [applying_line trans] w)).
Proof.
  intros Hname Hfunc Hcall Hov Hnd Hall Hfail.
  unfold apply_transform. unfold_monad. simpl.
  rewrite Hfunc, Hname. simpl. rewrite Hcall. simpl. rewrite Hov. simpl.
  rewrite for_each_app.
  rewrite (bind_run _ _ _ _ _
             (overview_loop_stretch func _ before before' [] ((k, v) :: rest)
                (set_data d self) _ Hov Hnd Hall)).
  simpl. unfold_monad. simpl. rewrite Hfail. reflexivity.
Qed.

(** The inner loop, read backwards: if it returns, every entry was
    transformed. *)
Lemma overview_loop_returns (func : callable) (args : Kwargs) :
  forall (todo done : list (level * pyval)) (self : MapSource) (w : World)
         (st' : ObjState),
    overviews self = PDict (done ++ todo) ->
    List.NoDup (map fst (done ++ todo)) ->
    for_each todo (transform_overview func args) (self, w) = (Ret tt, st') ->
    exists todo',
      Forall2 (fun e e' => fst e' = fst e /\ func (snd e) args = Ret (snd e')) todo todo'
      /\ st' = (set_overviews (PDict (done ++ todo')) self, w).
Proof.
  induction todo as [|[k v] todo IH]; intros done self w st' Hov Hnd Hrun.
  - exists []. split; [constructor|].
    rewrite (overview_loop func args [] [] done self w Hov Hnd (List.Forall2_nil _)) in Hrun.
    inversion Hrun; subst. reflexivity.
  - destruct (func v args) as [v'|e] eqn:Hv.
    + cbn [for_each] in Hrun. unfold mbind at 1 in Hrun. unfold M_bind at 1 in Hrun.
      assert (Hone : transform_overview func args (k, v) (self, w)
                     = (Ret tt, (set_overviews (PDict (done ++ (k, v') :: todo)) self, w))).
      { unfold transform_overview. unfold_monad. simpl. rewrite Hv. simpl.
        rewrite Hov. simpl. rewrite assoc_set_middle; [reflexivity|].
        rewrite map_app in Hnd. simpl in Hnd. apply NoDup_remove_2 in Hnd.
        intros Hin. apply Hnd. apply in_or_app. left. exact Hin. }
      rewrite Hone in Hrun.
      apply (IH (done ++ [(k, v')])) in Hrun.
      * destruct Hrun as (todo' & Hall & Hst). exists ((k, v') :: todo'). split.
        -- constructor; [split; [reflexivity | exact Hv] | exact Hall].
        -- rewrite Hst, <- app_assoc. reflexivity.
      * simpl. rewrite <- app_assoc. reflexivity.
      * rewrite <- app_assoc. simpl. rewrite !map_app in *. simpl in *. exact Hnd.
    + simpl in Hrun. unfold transform_overview in Hrun. unfold_monad. simpl in Hrun.
      rewrite Hv in Hrun. discriminate.
Qed.

Lemma Forall2_same_keys {A B} (P : A -> A -> Prop) (f : A -> B) (l l' : list A) :
  Forall2 (fun e e' => f e' = f e /\ P e e') l l' -> map f l' = map f l.
Proof.
  induction 1 as [|x y l l' [Hk _] _ IH]; simpl; [reflexivity|].
  rewrite Hk, IH. reflexivity.
Qed.

(** A data transform that returns, read backwards. *)
Lemma data_step_returns (trans : TransformStep) (self : MapSource) (w : World)
    (st' : ObjState) (m : list (level * pyval)) :
  data_step trans ->
  overviews self = PDict m ->
  List.NoDup (map fst m) ->
  apply_transform trans (self, w) = (Ret tt, st') ->
  exists (func : callable) (d : pyval) (m' : list (level * pyval)),
    get_transform_by_name (t_name trans) = Ret func
    /\ func (data self) (default empty_args (t_args trans)) = Ret d
    /\ Forall2 (fun e e' => fst e' = fst e /\
                  func (snd e) (default empty_args (t_args trans)) = Ret (snd e')) m m'
    /\ st' = (set_overviews (PDict m') (set_data d self), printed [applying_line trans] w).
Proof.
  intros Hname Hov Hnd Hrun. unfold data_step in Hname.
  unfold apply_transform in Hrun. unfold_monad. simpl in Hrun.
  destruct (get_transform_by_name (t_name trans)) as [func|e];
    [|simpl in Hrun; discriminate].
  rewrite Hname in Hrun. simpl in Hrun.
  destruct (func (data self) (default empty_args (t_args trans))) as [d|e] eqn:Hcall;
    [|simpl in Hrun; discriminate].
  simpl in Hrun. rewrite Hov in Hrun. simpl in Hrun.
  apply (overview_loop_returns func _ m [] (set_data d self)) in Hrun;
    [|exact Hov|exact Hnd].
  destruct Hrun as (m' & Hall & Hst). exists func, d, m'. auto.
Qed.

(** X7.  A pipeline without overview builders keeps the set of overview
    levels: if it returns, [self.overviews] has the same keys in the same
    order as before. *)
Theorem pipeline_keeps_levels (ts : list TransformStep) :
  Forall data_step ts ->
  forall (self s' : MapSource) (w w' : World) (m : list (level * pyval)),
    overviews self = PDict m ->
    List.NoDup (map fst m) ->
    for_each ts apply_transform (self, w) = (Ret tt, (s', w')) ->
    exists m', overviews s' = PDict m' /\ map fst m' = map fst m.
Proof.
  induction 1 as [|t ts Ht _ IH]; intros self s' w w' m Hov Hnd Hrun.
  - simpl in Hrun. inversion Hrun; subst. exists m. auto.
  - simpl in Hrun. apply bind_returns in Hrun as ([] & [s1 w1] & Hstep & Hrun).
    apply (data_step_returns t self w _ m Ht Hov Hnd) in Hstep.
    destruct Hstep as (func & d & m1 & _ & _ & Hall & Hst).
    inversion Hst; subst; clear Hst.
    pose proof (Forall2_same_keys _ fst m m1 Hall) as Hkeys.
    assert (Hnd1 : List.NoDup (map fst m1)) by (rewrite Hkeys; exact Hnd).
    destruct (IH (set_overviews (PDict m1) (set_data d self)) s' _ w' m1
                eq_refl Hnd1 Hrun) as (m' & Hov' & Hkeys').
    exists m'. split; [exact Hov'|]. rewrite Hkeys'. exact Hkeys.
Qed.

(** X8.  An overview builder never reads the overviews that exist: its
    outcome is the same whatever [self.overviews] holds, and when it returns
    the state is the same too, so a later builder fully replaces the work of
    an earlier one. *)
Theorem builder_ignores_overviews (trans : TransformStep) (self : MapSource)
    (w : World) (earlier : pyval) :
  str_contains "overviews" (t_name trans) = true ->
  fst (apply_transform trans (set_overviews earlier self, w))
  = fst (apply_transform trans (self, w))
  /\ (is_ret (fst (apply_transform trans (self, w))) = true ->
      apply_transform trans (set_overviews earlier self, w)
      = apply_transform trans (self, w)).
Proof.
  intros Hname. unfold apply_transform. unfold_monad. simpl. rewrite Hname.
  destruct (get_transform_by_name (t_name trans)) as [func|e]; simpl.
  - destruct (func (data self) (default empty_args (t_args trans))); simpl.
    + split; reflexivity.
    + split; [reflexivity | discriminate].
  - split; [reflexivity | discriminate].
Qed.

End PipelineFailure.

Section ConstructorEdges.
Context `{Externals}.



Lemma prefix_split (n h : string) :
  String.prefix n h = true <-> exists b, h = (n ++ b)%string.
Proof.
  revert h. induction n as [|c n IH]; intros h; simpl.
  - split; [intros _; exists h; reflexivity | intros _; destruct h; reflexivity].
  - destruct h as [|c' h]; [split; [discriminate | intros [b Hb]; discriminate]|].
    simpl. destruct (Ascii.ascii_dec c c') as [->|Hne].
    + rewrite IH. split; intros [b Hb]; exists b.
      * rewrite Hb. reflexivity.
      * inversion Hb. reflexivity.
    + split; [discriminate|]. intros [b Hb]. inversion Hb. subst. exfalso.
      apply Hne. reflexivity.
Qed.

(** The substring test of the model is the substring relation. *)
Lemma str_contains_split (n h : string) :
  str_contains n h = true <-> exists a b, h = (a ++ n ++ b)%string.
Proof.
  induction h as [|c h IH]; cbn [str_contains].
  - rewrite orb_false_r, prefix_split. split.
    + intros [b Hb]. exists EmptyString, b. exact Hb.
    + intros (a & b & Hab). destruct a as [|c a]; [exists b; exact Hab | discriminate].
  - rewrite orb_true_iff, prefix_split, IH. split.
    + intros [[b Hb]|(a & b & Hab)].
      * exists EmptyString, b. exact Hb.
      * exists (String c a), b. simpl. rewrite Hab. reflexivity.
    + intros (a & b & Hab). destruct a as [|c' a].
      * left. exists b. exact Hab.
      * right. exists a, b. simpl in Hab. inversion Hab. reflexivity.
Qed.

(** X10.  The marker that makes a constructor load at once: some declared
    transform whose name has the text ['overviews'] somewhere inside it.  Case
    matters, and a name that merely mentions the word, whatever the step does,
    triggers the load. *)
Theorem overview_marker (ts : list TransformStep) :
  contains_overviews ts = true
  <-> exists t a b, In t ts /\ t_name t = (a ++ "overviews" ++ b)%string.
Proof.
  rewrite contains_overviews_existsb, existsb_exists. split.
  - intros (t & Hin & Ht). apply str_contains_split in Ht as (a & b & Hab).
    exists t, a, b. auto.
  - intros (t & a & b & Hin & Hab). exists t. split; [exact Hin|].
    apply str_contains_split. exists a, b. exact Hab.
Qed.

End ConstructorEdges.

Section ExtentMemo.
Context `{Externals}.

(** X11.  The extent is memoized on the first request that returns and not
    recomputed while the cache keeps the entry: whatever [load] or a
    transform does to the instance afterwards, later requests answer with
    that first value; a request that raises memoizes nothing. *)
Theorem full_extent_memoized_once (self : MapSource) (r : res Extent)
    (memo : option Extent) :
  full_extent self None = (r, memo) ->
  match r with
  | Ret e =>
      memo = Some e
      /\ forall later : MapSource, full_extent later memo = (Ret e, memo)
  | Raise _ => memo = None
  end.
Proof.
  unfold full_extent. destruct (compute_full_extent self) as [e|x]; intros Hreq;
    inversion Hreq; subst.
  - split; reflexivity.
  - reflexivity.
Qed.

End ExtentMemo.

Section CatalogEdges.
Context `{Externals}.

(** One pass of the outer loop over a dictionary that is there, spelled out. *)
Lemma parse_source_unfold (cfg contains : option string) (a : nat) (c : Catalog)
    (obj : SourceDict) :
  heap c !! a = Some obj ->
  parse_source cfg contains a c
  = match from_obj obj (world c) with
    | (Raise e, w1) => (Raise e, {| heap := heap c; world := w1; yielded := yielded c |})
    | (Ret so, w1) =>
        let c1 := {| heap := heap c; world := w1; yielded := yielded c |} in
        match obj K_service_types with
        | None =>
            (Raise (if dict_none obj K_service_types
                    then TypeError "'NoneType' object is not iterable"
                    else KeyError "service_types"), c1)
        | Some ts => for_each ts (parse_service cfg contains a so) c1
        end
    end.
Proof.
  intros Hobj. unfold parse_source.
  unfold mbind at 1. unfold M_bind at 1. unfold deref at 1. rewrite Hobj.
  unfold mbind at 1. unfold M_bind at 1. unfold in_catalog_world, zoom.
  destruct (from_obj obj (world c)) as [[so|e] w1]; [|reflexivity].
  unfold mbind at 1. unfold M_bind at 1. unfold deref. simpl. rewrite Hobj.
  unfold mbind at 1. unfold M_bind at 1. unfold eval, dict_getitem, dict_has.
  destruct (obj K_service_types); [reflexivity|].
  destruct (dict_none obj K_service_types); reflexivity.
Qed.

(** The inner loop never touches the environment, and once it has made a
    pass the dictionary carries the [config_path] argument. *)
Lemma service_loop_effects (cfg contains : option string) (a : nat) (so : MapSource) :
  forall (ts : list string) (c c' : Catalog) (r : res unit) (obj : SourceDict),
    heap c !! a = Some obj ->
    for_each ts (parse_service cfg contains a so) c = (r, c') ->
    world c' = world c
    /\ (ts = [] -> c' = c)
    /\ (ts <> [] \/ (dict_has obj K_config_path = true /\ obj K_config_path = cfg) ->
        exists obj' : SourceDict,
          heap c' !! a = Some obj'
          /\ dict_has obj' K_config_path = true /\ obj' K_config_path = cfg).
Proof.
  induction ts as [|t ts IH]; intros c c' r obj Hobj Hrun.
  - simpl in Hrun. inversion Hrun; subst. split; [reflexivity|]. split; [reflexivity|].
    intros [Hne|[Hhas Hcfg]]; [contradiction|]. exists obj. auto.
  - simpl in Hrun. unfold mbind, M_bind in Hrun.
    rewrite (parse_service_run cfg contains a so t c obj Hobj) in Hrun.
    cbv zeta in Hrun.
    assert (Hdone : dict_has (dict_set K_config_path cfg obj) K_config_path = true
                    /\ dict_set K_config_path cfg obj K_config_path = cfg).
    { split; [|reflexivity]. unfold dict_has. destruct cfg; reflexivity. }
    split; [|split; [discriminate|]].
    + destruct (skip_service contains obj) as [[|]|e].
      * eapply IH in Hrun; [|simpl; apply lookup_insert_eq]. apply Hrun.
      * destruct (service_classes t) as [k|e].
        -- eapply IH in Hrun; [|simpl; apply lookup_insert_eq]. apply Hrun.
        -- inversion Hrun; subst. reflexivity.
      * inversion Hrun; subst. reflexivity.
    + intros _. destruct (skip_service contains obj) as [[|]|e].
      * eapply IH in Hrun; [|simpl; apply lookup_insert_eq].
        apply Hrun. right. exact Hdone.
      * destruct (service_classes t) as [k|e].
        -- eapply IH in Hrun; [|simpl; apply lookup_insert_eq].
           apply Hrun. right. exact Hdone.
        -- inversion Hrun; subst. exists (dict_set K_config_path cfg obj). simpl.
           split; [apply lookup_insert_eq | exact Hdone].
      * inversion Hrun; subst. exists (dict_set K_config_path cfg obj). simpl.
        split; [apply lookup_insert_eq | exact Hdone].
Qed.

(** X12.  The filter saves no work: in every pass of the outer loop the
    source is built from its dictionary (and loaded, if it loads at once)
    before the filter is looked at, so the environment after the pass is the
    environment after building the source, whether the source is let through
    or not and whatever the outcome of the pass. *)
Theorem source_built_despite_filter (cfg contains : option string) (a : nat)
    (c c' : Catalog) (r : res unit) (obj : SourceDict) :
  heap c !! a = Some obj ->
  parse_source cfg contains a c = (r, c') ->
  world c' = snd (from_obj obj (world c)).
Proof.
  intros Hobj Hrun. rewrite (parse_source_unfold cfg contains a c obj Hobj) in Hrun.
  destruct (from_obj obj (world c)) as [[so|e] w1]; simpl.
  - cbv zeta in Hrun. destruct (obj K_service_types) as [ts|].
    + eapply service_loop_effects in Hrun; [|simpl; exact Hobj].
      destruct Hrun as [Hw _]. exact Hw.
    + inversion Hrun; subst. reflexivity.
  - inversion Hrun; subst. reflexivity.
Qed.

(** X13.  What stops a pass of the outer loop.  A dictionary without the key
    ['geometry_type'] raises [KeyError] before anything is built.  One without
    the key ['service_types'] raises [KeyError] only after its source has been
    built.
    An unknown service type raises [KeyError], and a filter over a dictionary
    without a key raises [TypeError], in both cases after [config_path] has
    been assigned into the dictionary. *)
Theorem catalog_pass_errors (cfg contains : option string) (a : nat) (c : Catalog)
    (obj : SourceDict) :
  heap c !! a = Some obj ->
  (dict_has obj K_geometry_type = false ->
   parse_source cfg contains a c = (Raise (KeyError "geometry_type"), c))
  /\ (forall so w1,
        from_obj obj (world c) = (Ret so, w1) ->
        dict_has obj K_service_types = false ->
        parse_source cfg contains a c
        = (Raise (KeyError "service_types"),
           {| heap := heap c; world := w1; yielded := yielded c |}))
  /\ (forall so t,
        is_ret (skip_service contains obj) = true ->
        skip_service contains obj <> Ret true ->
        is_ret (service_classes t) = false ->
        parse_service cfg contains a so t c
        = (Raise (KeyError t),
           {| heap := <[a := dict_set K_config_path cfg obj]> (heap c);
              world := world c; yielded := yielded c |}))
  /\ (forall so t,
        truthy contains = true -> obj K_key = None ->
        exists e,
          parse_service cfg contains a so t c
          = (Raise e, {| heap := <[a := dict_set K_config_path cfg obj]> (heap c);
                         world := world c; yielded := yielded c |})
          /\ exn_class e = "TypeError").
Proof.
  intros Hobj. split; [|split; [|split]].
  - intros Hgt. rewrite (parse_source_unfold cfg contains a c obj Hobj).
    rewrite (from_obj_undeclared obj (world c) Hgt). destruct c; reflexivity.
  - intros so w1 Hbuild Hts. rewrite (parse_source_unfold cfg contains a c obj Hobj).
    unfold dict_has in Hts. rewrite Hbuild.
    destruct (obj K_service_types); [discriminate|]. rewrite Hts. reflexivity.
  - intros so t Hskip Hnot Hunknown.
    rewrite (parse_service_run cfg contains a so t c obj Hobj). cbv zeta.
    destruct (skip_service contains obj) as [[|]|e]; try discriminate.
    + exfalso. apply Hnot. reflexivity.
    + unfold service_classes in *.
      destruct (String.eqb t "tile"); [discriminate|].
      destruct (String.eqb t "wms"); [discriminate|].
      destruct (String.eqb t "image"); [discriminate|].
      destruct (String.eqb t "geojson"); [discriminate|]. reflexivity.
  - intros so t Hfilter Hkey.
    rewrite (parse_service_run cfg contains a so t c obj Hobj). cbv zeta.
    unfold skip_service. rewrite Hfilter, Hkey. eexists. split; reflexivity.
Qed.

(** X14.  An empty filter string is no filter. *)
Theorem empty_filter_is_no_filter (srcs : list nat) (cfg : option string) (c : Catalog) :
  parse_sources srcs cfg (Some EmptyString) c = parse_sources srcs cfg None c.
Proof.
  unfold parse_sources. apply for_each_ext. intros a s.
  unfold parse_source.
  apply bind_ext. intros obj s1.
  apply bind_ext. intros so s2.
  apply bind_ext. intros obj2 s3.
  apply bind_ext. intros [ts|] s4; [|reflexivity].
  apply for_each_ext. intros t s5. reflexivity.
Qed.

End CatalogEdges.

Section CatalogMutation.
Context `{Externals}.

(** What the catalog loop does to the dictionaries of the heap, whatever its
    outcome, overviews held by value: the loop itself assigns only
    [config_path], and only into the dictionaries the list names. *)
Lemma catalog_loop_heap (cfg contains : option string) :
  forall (srcs : list nat) (c c' : Catalog) (r : res unit),
    parse_sources srcs cfg contains c = (r, c') ->
    (forall (a : nat) (obj : SourceDict),
        heap c !! a = Some obj ->
        exists obj' : SourceDict,
          heap c' !! a = Some obj' /\ forall k, k <> K_config_path -> obj' k = obj k)
    /\ (forall b, ~ In b srcs -> heap c' !! b = heap c !! b).
Proof.
  unfold parse_sources.
  induction srcs as [|a0 srcs IH]; intros c c' r Hrun; simpl in Hrun.
  - inversion Hrun; subst. split; [intros a obj Hobj; exists obj; auto | auto].
  - unfold mbind, M_bind in Hrun.
    destruct (parse_source cfg contains a0 c) as [r1 c1] eqn:Hone.
    apply parse_source_run in Hone as (_ & _ & Hother & _ & _ & _ & Hat).
    assert (Hstep : forall (a : nat) (obj : SourceDict),
               heap c !! a = Some obj ->
               exists obj1 : SourceDict,
                 heap c1 !! a = Some obj1
                 /\ forall k, k <> K_config_path -> obj1 k = obj k).
    { intros a obj Hobj. destruct (decide (a = a0)) as [->|Hne].
      - apply Hat. exact Hobj.
      - exists obj. split; [rewrite (Hother a Hne); exact Hobj | auto]. }
    destruct r1 as [[]|e].
    + apply IH in Hrun as [Hagree Huntouched]. split.
      * intros a obj Hobj. destruct (Hstep a obj Hobj) as (obj1 & Hobj1 & Hag1).
        destruct (Hagree a obj1 Hobj1) as (obj' & Hobj' & Hag').
        exists obj'. split; [exact Hobj'|]. intros k Hk.
        rewrite (Hag' k Hk). apply Hag1. exact Hk.
      * intros b Hb. rewrite Huntouched by (intros Hin; apply Hb; right; exact Hin).
        apply Hother. intros ->. apply Hb. left. reflexivity.
    + inversion Hrun; subst. split; [exact Hstep|].
      intros b Hb. apply Hother. intros ->. apply Hb. left. reflexivity.
Qed.

Lemma parse_source_config (cfg contains : option string) (a : nat) (c c1 : Catalog)
    (obj : SourceDict) (ts : list string) :
  parse_source cfg contains a c = (Ret tt, c1) ->
  heap c !! a = Some obj ->
  obj K_service_types = Some ts -> ts <> [] ->
  exists obj1 : SourceDict,
    heap c1 !! a = Some obj1
    /\ dict_has obj1 K_config_path = true /\ obj1 K_config_path = cfg.
Proof.
  intros Hrun Hobj Hts Hne.
  rewrite (parse_source_unfold cfg contains a c obj Hobj) in Hrun.
  destruct (from_obj obj (world c)) as [[so|e] w1]; [|discriminate].
  cbv zeta in Hrun. rewrite Hts in Hrun.
  eapply service_loop_effects in Hrun; [|simpl; exact Hobj].
  destruct Hrun as (_ & _ & Hcfg). apply Hcfg. left. exact Hne.
Qed.

(** The entries of the dictionaries in the heap after a run that reaches its
    end, overviews held by value. *)
Lemma catalog_loop_config (cfg contains : option string) :
  forall (srcs : list nat) (c c' : Catalog),
    parse_sources srcs cfg contains c = (Ret tt, c') ->
    (forall (a : nat) (obj : SourceDict) (ts : list string),
        In a srcs -> heap c !! a = Some obj ->
        obj K_service_types = Some ts -> ts <> [] ->
        exists obj' : SourceDict,
          heap c' !! a = Some obj'
          /\ dict_has obj' K_config_path = true
          /\ obj' K_config_path = cfg
          /\ forall k, k <> K_config_path -> obj' k = obj k)
    /\ (forall b, ~ In b srcs -> heap c' !! b = heap c !! b).
Proof.
  intros srcs c c' Hrun. split; [|exact (proj2 (catalog_loop_heap _ _ _ _ _ _ Hrun))].
  revert c c' Hrun. unfold parse_sources.
  induction srcs as [|a0 srcs IH]; intros c c' Hrun a obj ts Hin Hobj Hts Hne;
    [contradiction|].
  simpl in Hrun. apply bind_returns in Hrun as ([] & c1 & Hone & Hrest).
  pose proof (parse_source_run _ _ _ _ _ _ Hone) as (_ & _ & Hother & _ & _ & _ & Hat).
  destruct (in_dec Nat.eq_dec a srcs) as [Hlater|Hlast].
  - assert (Hmid : exists obj1 : SourceDict,
               heap c1 !! a = Some obj1
               /\ forall k, k <> K_config_path -> obj1 k = obj k).
    { destruct (decide (a = a0)) as [->|Hneq].
      - apply Hat. exact Hobj.
      - exists obj. split; [rewrite (Hother a Hneq); exact Hobj | auto]. }
    destruct Hmid as (obj1 & Hobj1 & Hag1).
    destruct (IH c1 c' Hrest a obj1 ts Hlater Hobj1)
      as (obj' & Hobj' & Hhas & Hcfg & Hag').
    + rewrite Hag1 by discriminate. exact Hts.
    + exact Hne.
    + exists obj'. split; [exact Hobj'|]. split; [exact Hhas|]. split; [exact Hcfg|].
      intros k Hk. rewrite (Hag' k Hk). apply Hag1. exact Hk.
  - destruct Hin as [<-|Hin]; [|contradiction].
    destruct (parse_source_config _ _ _ _ _ obj ts Hone Hobj Hts Hne)
      as (obj1 & Hobj1 & Hhas & Hcfg).
    destruct (Hat obj Hobj) as (obj1' & Hobj1' & Hag1).
    rewrite Hobj1 in Hobj1'. inversion Hobj1'; subst obj1'.
    exists obj1. split; [|split; [exact Hhas | split; [exact Hcfg | exact Hag1]]].
    rewrite <- Hobj1.
    apply (proj2 (catalog_loop_heap cfg contains srcs c1 c' (Ret tt) Hrest)). exact Hlast.
Qed.

(** X15.  [parse_sources] writes into the dictionaries it is given: after a
    run that reaches its end, every listed dictionary with at least one
    service type has the key ['config_path'] and holds the [config_path]
    argument under it.  Under every other key except ['overviews'] a
    dictionary in the heap, listed or not, holds what it held before.  (The
    dict under ['overviews'] is shared with the sources built from the
    dictionary, whose data transforms assign into it; nothing is stated
    about it.) *)
Theorem parse_sources_assigns_config_path (cfg contains : option string) :
  forall (srcs : list nat) (c c' : Catalog),
    parse_sources srcs cfg contains c = (Ret tt, c') ->
    (forall (a : nat) (obj : SourceDict) (ts : list string),
        In a srcs -> heap c !! a = Some obj ->
        obj K_service_types = Some ts -> ts <> [] ->
        exists obj' : SourceDict,
          heap c' !! a = Some obj'
          /\ dict_has obj' K_config_path = true
          /\ obj' K_config_path = cfg)
    /\ (forall (b : nat) (obj : SourceDict),
          heap c !! b = Some obj ->
          exists obj' : SourceDict,
            heap c' !! b = Some obj'
            /\ forall k, k <> K_config_path -> k <> K_overviews -> obj' k = obj k).
Proof.
  intros srcs c c' Hrun. split.
  - intros a obj ts Hin Hobj Hts Hne.
    destruct (proj1 (catalog_loop_config cfg contains srcs c c' Hrun) a obj ts
                Hin Hobj Hts Hne) as (obj' & Hobj' & Hhas & Hcfg & _).
    exists obj'. auto.
  - intros b obj Hobj.
    destruct (proj1 (catalog_loop_heap cfg contains srcs c c' (Ret tt) Hrun) b obj Hobj)
      as (obj' & Hobj' & Hagree).
    exists obj'. split; [exact Hobj'|]. intros k Hk _. apply Hagree. exact Hk.
Qed.

End CatalogMutation.

Section CatalogPrefix.
Context `{Externals}.

Lemma service_loop_prefix (cfg contains : option string) (a : nat) (so : MapSource) :
  forall (ts : list string) (c c' : Catalog) (r : res unit) (obj : SourceDict),
    heap c !! a = Some obj ->
    for_each ts (parse_service cfg contains a so) c = (r, c') ->
    exists (new : list MapService) (tl : list string),
      yielded c' = yielded c ++ new
      /\ Forall (fun svc => source svc = so) new
      /\ (if wanted contains (obj K_key) then ts else []) = map service_type new ++ tl.
Proof.
  induction ts as [|t ts IH]; intros c c' r obj Hobj Hrun.
  - simpl in Hrun. inversion Hrun; subst. exists [], [].
    rewrite app_nil_r. repeat split; auto.
    destruct (wanted contains (obj K_key)); reflexivity.
  - simpl in Hrun. unfold mbind, M_bind in Hrun.
    rewrite (parse_service_run cfg contains a so t c obj Hobj) in Hrun.
    cbv zeta in Hrun.
    assert (Hnothing : forall c0, yielded c0 = yielded c ->
              exists (new : list MapService) (tl : list string),
                yielded c0 = yielded c ++ new
                /\ Forall (fun svc => source svc = so) new
                /\ (if wanted contains (obj K_key) then t :: ts else [])
                   = map service_type new ++ tl).
    { intros c0 Hy. exists [], (if wanted contains (obj K_key) then t :: ts else []).
      rewrite app_nil_r. repeat split; auto. }
    destruct (skip_service contains obj) as [[|]|e] eqn:Hskip.
    + apply skip_wanted in Hskip. simpl in Hskip.
      eapply IH in Hrun; [|simpl; apply lookup_insert_eq].
      destruct Hrun as (new & tl & Hy & Hsrc & Hpre). simpl in *.
      change (dict_set K_config_path cfg obj K_key) with (obj K_key) in Hpre.
      rewrite Hskip in *. exists new, tl. auto.
    + apply skip_wanted in Hskip. simpl in Hskip.
      destruct (service_classes t) as [k|e] eqn:Hk.
      * eapply IH in Hrun; [|simpl; apply lookup_insert_eq].
        destruct Hrun as (new & tl & Hy & Hsrc & Hpre). simpl in *.
        change (dict_set K_config_path cfg obj K_key) with (obj K_key) in Hpre.
        rewrite Hskip in *.
        exists ({| service_class := k; source := so; renderers := [] |} :: new), tl.
        split; [rewrite Hy, <- app_assoc; reflexivity|].
        split; [constructor; [reflexivity | exact Hsrc]|].
        simpl. rewrite (service_classes_type t k so [] Hk), Hpre. reflexivity.
      * inversion Hrun; subst. apply Hnothing. reflexivity.
    + inversion Hrun; subst. apply Hnothing. reflexivity.
Qed.

Lemma parse_source_prefix (cfg contains : option string) (a : nat)
    (c c' : Catalog) (r : res unit) :
  parse_source cfg contains a c = (r, c') ->
  exists (new : list MapService) (tl : list (option string * string)),
    yielded c' = yielded c ++ new
    /\ expected contains (heap c) a = map described new ++ tl.
Proof.
  intros Hrun. destruct (heap c !! a) as [obj|] eqn:Hobj.
  - rewrite (parse_source_unfold cfg contains a c obj Hobj) in Hrun.
    destruct (from_obj obj (world c)) as [[so|e] w1] eqn:Hbuild.
    + cbv zeta in Hrun. destruct (obj K_service_types) as [ts|] eqn:Hts.
      * eapply service_loop_prefix in Hrun; [|simpl; exact Hobj].
        destruct Hrun as (new & tl & Hy & Hsrc & Hpre). simpl in Hy.
        exists new, (map (fun t => (obj K_key, t)) tl). split; [exact Hy|].
        rewrite (described_of_source so new Hsrc).
        destruct (from_obj_attributes obj _ _ so Hbuild) as [Hk _]. rewrite Hk.
        unfold expected, listing, entry_listing. rewrite Hobj, Hts. simpl.
        rewrite <- map_app, <- Hpre.
        destruct (wanted contains (obj K_key)); reflexivity.
      * inversion Hrun; subst. exists [], (expected contains (heap c) a).
        simpl. rewrite app_nil_r. auto.
    + inversion Hrun; subst. exists [], (expected contains (heap c) a).
      simpl. rewrite app_nil_r. auto.
  - unfold parse_source in Hrun. unfold mbind at 1 in Hrun. unfold M_bind at 1 in Hrun.
    unfold deref at 1 in Hrun. rewrite Hobj in Hrun. inversion Hrun; subst.
    exists [], (expected contains (heap c') a). rewrite app_nil_r. auto.
Qed.

(** X16.  Whatever the outcome, what [parse_sources] has yielded is an
    initial stretch of what a complete run yields: an exception cuts the
    catalog short but never reorders it or adds to it, and the number of
    services never exceeds the number of (source, service type) pairs the
    filter lets through. *)
Theorem yielded_is_prefix (cfg contains : option string) :
  forall (srcs : list nat) (c c' : Catalog) (r : res unit),
    yielded c = [] ->
    parse_sources srcs cfg contains c = (r, c') ->
    (exists tl, flat_map (expected contains (heap c)) srcs
                = map described (yielded c') ++ tl)
    /\ length (yielded c') <= length (flat_map (expected contains (heap c)) srcs).
Proof.
  assert (Hgen : forall (srcs : list nat) (c c' : Catalog) (r : res unit),
             parse_sources srcs cfg contains c = (r, c') ->
             exists (new : list MapService) (tl : list (option string * string)),
               yielded c' = yielded c ++ new
               /\ flat_map (expected contains (heap c)) srcs = map described new ++ tl).
  { unfold parse_sources.
    induction srcs as [|a srcs IH]; intros c c' r Hrun; simpl in Hrun.
    - inversion Hrun; subst. exists [], []. rewrite app_nil_r. auto.
    - unfold mbind, M_bind in Hrun.
      destruct (parse_source cfg contains a c) as [[[]|e] c1] eqn:Hone.
      + apply parse_source_run in Hone as (new1 & Hy1 & Hother & Hat & _ & Hret1 & _).
        assert (Hl1 : forall b, listing (heap c1) b = listing (heap c) b).
        { intros b. destruct (decide (b = a)) as [->|Hb]; [exact Hat|].
          unfold listing. rewrite (Hother b Hb). reflexivity. }
        apply IH in Hrun as (new2 & tl & Hy2 & Hpre).
        exists (new1 ++ new2), tl. split.
        * rewrite Hy2, Hy1, app_assoc. reflexivity.
        * simpl. rewrite map_app, <- app_assoc, <- Hpre, (Hret1 eq_refl).
          rewrite (expected_listing contains (heap c) (heap c1) Hl1). reflexivity.
      + inversion Hrun; subst.
        apply parse_source_prefix in Hone as (new1 & tl & Hy1 & Hpre).
        exists new1, (tl ++ flat_map (expected contains (heap c)) srcs). split; [exact Hy1|].
        simpl. rewrite Hpre, app_assoc. reflexivity. }
  intros srcs c c' r Hempty Hrun.
  apply Hgen in Hrun as (new & tl & Hy & Hpre).
  rewrite Hempty in Hy. simpl in Hy. subst new.
  split; [exists tl; exact Hpre|].
  rewrite Hpre, length_app, length_map. lia.
Qed.

End CatalogPrefix.

Section Strings.

Lemma string_app_assoc (a b d : string) : ((a ++ b) ++ d = a ++ b ++ d)%string.
Proof.
  induction a as [|c a IH]; [reflexivity|].
  change (String c ((a ++ b) ++ d) = String c (a ++ b ++ d))%string.
  rewrite IH. reflexivity.
Qed.

Lemma str_contains_app_r (n a b : string) :
  str_contains n b = true -> str_contains n (a ++ b)%string = true.
Proof.
  rewrite !str_contains_split. intros (x & y & ->).
  exists (a ++ x)%string, y. rewrite string_app_assoc. reflexivity.
Qed.

(** Two texts that end in a dash and a dash-free word, and are equal, have
    equal words and equal beginnings. *)
Lemma dash_suffix_inj (t1 t2 : string) :
  str_contains "-" t1 = false -> str_contains "-" t2 = false ->
  forall a b : string,
    (a ++ "-" ++ t1 = b ++ "-" ++ t2)%string -> a = b /\ t1 = t2.
Proof.
  intros Hfree1 Hfree2.
  assert (Hno : forall t x y, str_contains "-" t = false ->
                              t <> (x ++ "-" ++ y)%string).
  { intros t x y Hfree Heq.
    assert (Hyes : str_contains "-" t = true)
      by (apply str_contains_split; exists x, y; exact Heq).
    congruence. }
  induction a as [|c a IH]; intros [|c' b] Heq.
  - inversion Heq. auto.
  - exfalso. inversion Heq as [[Hc Ht]]. exact (Hno t1 b t2 Hfree1 Ht).
  - exfalso. inversion Heq as [[Hc Ht]]. exact (Hno t2 a t1 Hfree2 (eq_sym Ht)).
  - inversion Heq as [[Hc Ht]]. destruct (IH b Ht) as [-> ->]. auto.
Qed.

End Strings.

Section ServiceRoutes.
Context `{Externals} `{!Printing}.

Lemma service_type_dash_free (svc : MapService) :
  str_contains "-" (service_type svc) = false.
Proof. unfold service_type. destruct (service_class svc); reflexivity. Qed.

Lemma service_type_inj (svc1 svc2 : MapService) :
  service_type svc1 = service_type svc2 -> service_class svc1 = service_class svc2.
Proof.
  unfold service_type.
  destruct (service_class svc1), (service_class svc2); intros Heq;
    first [reflexivity | discriminate].
Qed.

(** X17.  The key of a service identifies its source key and its service
    type: two services have the same key only if their sources print the same
    key and they are of the same class.  So two services of different
    classes over one source never share a key. *)
Theorem service_key_inj (svc1 svc2 : MapService) :
  service_key svc1 = service_key svc2 ->
  format (key (source svc1)) = format (key (source svc2))
  /\ service_class svc1 = service_class svc2.
Proof.
  unfold service_key. intros Heq.
  apply dash_suffix_inj in Heq as [Hkey Hty];
    [|apply service_type_dash_free|apply service_type_dash_free].
  split; [exact Hkey | apply service_type_inj; exact Hty].
Qed.

(** X18.  Route templates.  Every route of a service starts with its page
    address ['/' + key].  The route of a tile service carries the three
    placeholders z, x and y, for the server in angle brackets and for the
    client in braces; the route of an image service carries the six
    placeholders of the bounding box and the size. *)
Theorem route_templates (svc : MapService) :
  String.prefix (service_page_url svc) (service_url svc) = true
  /\ String.prefix (service_page_url svc) (client_url svc) = true
  /\ (service_class svc = TileService ->
      Forall (fun p => str_contains p (service_url svc) = true) ["<z>"; "<x>"; "<y>"]
      /\ Forall (fun p => str_contains p (client_url svc) = true) ["{z}"; "{x}"; "{y}"])
  /\ (service_class svc = ImageService ->
      Forall (fun p => str_contains p (service_url svc) = true)
             ["<xmin>"; "<ymin>"; "<xmax>"; "<ymax>"; "<width>"; "<height>"]).
Proof.
  assert (Hpre : forall rest, String.prefix (service_page_url svc)
                                (service_page_url svc ++ rest)%string = true).
  { intros rest. apply prefix_split. exists rest. reflexivity. }
  unfold service_page_url in *.
  assert (Hassoc : forall k rest, ("/" ++ k ++ rest = ("/" ++ k) ++ rest)%string).
  { intros k rest. rewrite string_app_assoc. reflexivity. }
  split; [|split; [|split]].
  - unfold service_url. destruct (service_class svc); rewrite Hassoc; apply Hpre.
  - unfold client_url. destruct (service_class svc); rewrite ?Hassoc; apply Hpre.
  - intros Hk. unfold service_url, client_url. rewrite Hk.
    split; repeat constructor; rewrite Hassoc; apply str_contains_app_r; reflexivity.
  - intros Hk. unfold service_url. rewrite Hk.
    repeat constructor; rewrite Hassoc; apply str_contains_app_r; reflexivity.
Qed.

Lemma extent_item_ret (svc : MapService) (i : nat) :
  (i < length (default_extent (source svc)))%nat ->
  exists x, extent_item svc i = Ret x.
Proof.
  intros Hi. unfold extent_item.
  destruct (nth_error (default_extent (source svc)) i) as [x|] eqn:Hnth; [eauto|].
  apply nth_error_None in Hnth. lia.
Qed.

Lemma extent_item_raise (svc : MapService) (i : nat) :
  (length (default_extent (source svc)) <= i)%nat ->
  extent_item svc i = Raise (IndexError "list index out of range").
Proof.
  intros Hi. unfold extent_item.
  destruct (nth_error (default_extent (source svc)) i) as [x|] eqn:Hnth; [|reflexivity].
  assert (Hlt : (i < length (default_extent (source svc)))%nat)
    by (apply nth_error_Some; congruence).
  lia.
Qed.

(** X19.  The default address.  Tile and GeoJSON services always have one.
    Image and WMS services read the first four entries of the source's
    default extent: they have a default address exactly when the extent has
    at least four entries, and raise [IndexError] otherwise.  A source
    constructed without [default_extent] gets a four-entry extent, so all its
    services have a default address. *)
Theorem default_url_defined (svc : MapService) :
  (service_class svc = TileService \/ service_class svc = GeoJSONService ->
   is_ret (default_url svc) = true)
  /\ (service_class svc = ImageService \/ service_class svc = WMSService ->
      (is_ret (default_url svc) = true
       <-> (4 <= length (default_extent (source svc)))%nat)
      /\ (is_ret (default_url svc) = false ->
          default_url svc = Raise (IndexError "list index out of range")))
  /\ (forall cls (kw : SourceDict) w w',
        kw K_default_extent = None ->
        __init__ cls kw w = (Ret (source svc), w') ->
        is_ret (default_url svc) = true).
Proof.
  assert (Hfour : (4 <= length (default_extent (source svc)))%nat ->
                  is_ret (default_url svc) = true).
  { intros Hlen. unfold default_url.
    destruct (extent_item_ret svc 0 ltac:(lia)) as [x0 H0'].
    destruct (extent_item_ret svc 1 ltac:(lia)) as [x1 H1'].
    destruct (extent_item_ret svc 2 ltac:(lia)) as [x2 H2'].
    destruct (extent_item_ret svc 3 ltac:(lia)) as [x3 H3'].
    rewrite H0', H1', H2', H3'. destruct (service_class svc); reflexivity. }
  assert (Hshort : service_class svc = ImageService \/ service_class svc = WMSService ->
                   (length (default_extent (source svc)) < 4)%nat ->
                   default_url svc = Raise (IndexError "list index out of range")).
  { intros Hk Hlen. unfold default_url, extent_item.
    destruct (default_extent (source svc)) as [|x0 [|x1 [|x2 [|x3 rest]]]];
      simpl in Hlen; try lia;
      destruct Hk as [Hk|Hk]; rewrite Hk; reflexivity. }
  split; [|split].
  - intros [Hk|Hk]; unfold default_url; rewrite Hk; reflexivity.
  - intros Hk. split.
    + split; [|exact Hfour]. intros Hret.
      destruct (le_lt_dec 4 (length (default_extent (source svc)))) as [Hge|Hlt];
        [exact Hge|].
      rewrite (Hshort Hk Hlt) in Hret. discriminate.
    + intros Hfail.
      destruct (le_lt_dec 4 (length (default_extent (source svc)))) as [Hge|Hlt].
      * rewrite (Hfour Hge) in Hfail. discriminate.
      * exact (Hshort Hk Hlt).
  - intros cls kw w w' Hnone Hinit. apply Hfour.
    apply init_descriptor in Hinit as (self0 & Hattrs & _ & Heq).
    rewrite Heq. unfold init_attributes in Hattrs.
    destruct (span_needs_zfield kw); [discriminate|].
    destruct (init_cmap kw); simpl in Hattrs; [|discriminate].
    inversion Hattrs; subst; clear Hattrs. simpl. rewrite Hnone. simpl. lia.
Qed.

End ServiceRoutes.

Section BaseClass.
Context `{Externals}.

(** X20.  The base class has no loader: a plain [MapSource] that holds no
    data cannot be loaded.  [load] raises and leaves the instance as it was;
    when the data path resolves, the exception is [NotImplementedError] and
    only the effects of the path resolution have happened. *)
Theorem base_class_needs_data (self : MapSource) (w : World) :
  klass self = MapSourceClass ->
  is_loaded self = false ->
  data self = PNone ->
  is_ret (fst (load (self, w))) = false
  /\ fst (snd (load (self, w))) = self
  /\ (forall p w1, resolve_data_path self w = (Ret p, w1) ->
        load (self, w) = (Raise NotImplementedError, (self, w1))).
Proof.
  intros Hklass Hflag Hdata.
  assert (Hrun : load (self, w)
                 = match resolve_data_path self w with
                   | (Ret _, w1) => (Raise NotImplementedError, (self, w1))
                   | (Raise e, w1) => (Raise e, (self, w1))
                   end).
  { unfold load.
    unfold mbind, M_bind, fmap, M_fmap, get_self, gets, eval, in_world, zoom.
    cbn [fst snd]. rewrite Hflag, Hdata. cbn [fst snd].
    destruct (resolve_data_path self w) as [[p|e] w1]; [|reflexivity].
    unfold load_func. rewrite Hklass. reflexivity. }
  rewrite Hrun.
  destruct (resolve_data_path self w) as [[p|e] w1]; repeat split.
  - intros p' w1' Heq. inversion Heq; subst. reflexivity.
  - intros p' w1' Heq. discriminate.
Qed.

End BaseClass.

(** * The definitions at work, and the properties at concrete inputs *)

Section Concrete.
Import Demo.
#[local] Existing Instance demo_types.
#[local] Existing Instance demo_externals.

Example countries_loads_eagerly :
  let r := __init__ VectorSourceClass countries_source world0 in
  match fst r with
  | Ret s =>
      is_loaded s = true /\
      data s = PObj "vector:/data/naturalearth_lowres.shp|sel|3857|sp" /\
      overviews s =
        PDict [(LevelStr "0", PObj "vector:/data/naturalearth_lowres.shp|sel|3857@0|sp");
               (LevelStr "1", PObj "vector:/data/naturalearth_lowres.shp|sel|3857@1|sp")]
  | Raise _ => False
  end /\
  stdout (snd r) = ["Using Given Filepath unmodified: config{self.config_file}";
                    "# ----------------------";
                    "# APPLYING TRANSFORMS World Countries";
                    "# ----------------------";
                    String "009" "Applying select_by_attributes";
                    String "009" "Applying reproject_vector";
                    String "009" "Applying build_vector_overviews";
                    String "009" "Applying to_spatialpandas"].
Proof. vm_compute. repeat split. Qed.

Example nybb_stays_unloaded :
  fst (__init__ VectorSourceClass nybb_source world0) =
  fst (init_attributes VectorSourceClass nybb_source, world0)
  /\ is_ret (fst (__init__ VectorSourceClass nybb_source world0)) = true.
Proof. vm_compute. split; reflexivity. Qed.

Example catalog_of_two :
  let r := parse_sources [0; 1]%nat None None
             (catalog0 [(0%nat, nybb_source); (1%nat, elevation_source_netcdf)]) in
  fst r = Ret tt /\
  map service_key (yielded (snd r)) =
    ["nyc-boroughs-tile"; "nyc-boroughs-wms"; "nyc-boroughs-image"; "nyc-boroughs-geojson";
     "elevation-netcdf-tile"; "elevation-netcdf-wms"; "elevation-netcdf-image";
     "elevation-netcdf-geojson"].
Proof. vm_compute. split; reflexivity. Qed.


Lemma apply_transforms_pipeline_witness :
  (exists s' : MapSource,
      apply_transform sp_step (two_levels, world0)
      = (Ret tt, (s', printed [applying_line sp_step] world0))
      /\ data s' = PObj "a|sp"
      /\ overviews s' = PDict [(LevelStr "0", PObj "a@0|sp"); (LevelStr "1", PObj "a@1|sp")])
  /\ (exists s' : MapSource,
        apply_transform overviews_step (stale_levels, world0)
        = (Ret tt, (s', printed [applying_line overviews_step] world0))
        /\ overviews s' = PDict [(LevelStr "0", PObj "a@0"); (LevelStr "1", PObj "a@1")]
        /\ data s' = PObj "a")
  /\ snd (snd (_apply_transforms (nybb_attached, world0)))
     = printed (banner nybb_attached ++ map applying_line (transforms nybb_attached)) world0.
Proof.
  destruct (apply_transforms_pipeline (H0 := demo_externals))
    as (_ & _ & Horder & Hbuild & Hstep).
  split; [|split].
  - destruct (Hstep sp_step (tag "|sp") two_levels world0 data_after
                levels_before levels_after)
      as (s' & Hrun & Hdata & Hlevels & _).
    + reflexivity.
    + reflexivity.
    + reflexivity.
    + reflexivity.
    + simpl. repeat constructor; simpl; intuition discriminate.
    + repeat constructor.
    + exists s'. split; [exact Hrun|]. split; [exact Hdata | exact Hlevels].
  - destruct (Hbuild overviews_step build_overviews stale_levels world0 (PDict levels_before))
      as (s' & Hrun & Hlevels & Hdata & _).
    + reflexivity.
    + reflexivity.
    + reflexivity.
    + exists s'. split; [exact Hrun|]. split; [exact Hlevels | exact Hdata].
  - eapply Horder. vm_compute. reflexivity.
Defined.

Lemma load_idempotent_witness :
  load (nybb_loaded, world0) = (Ret tt, (nybb_loaded, world0))
  /\ (load;; load) (nybb_unloaded, world0) = load (nybb_unloaded, world0).
Proof.
  destruct (load_idempotent (H0 := demo_externals)) as [Hnoop Htwice].
  split.
  - apply Hnoop. vm_compute. reflexivity.
  - apply Htwice.
Defined.

Lemma init_loads_iff_eager_witness :
  is_loaded (constructed VectorSourceClass countries_source) = true
  /\ is_loaded (constructed VectorSourceClass nybb_source) = false.
Proof.
  split.
  - destruct (init_loads_iff_eager VectorSourceClass countries_source world0) as [_ Hobs].
    apply (Hobs (constructed VectorSourceClass countries_source)
             (snd (__init__ VectorSourceClass countries_source world0))).
    + vm_compute. reflexivity.
    + vm_compute. reflexivity.
  - destruct (init_loads_iff_eager VectorSourceClass nybb_source world0) as [_ Hobs].
    destruct (Hobs (constructed VectorSourceClass nybb_source) world0) as [[Hl _] _].
    + vm_compute. reflexivity.
    + destruct (is_loaded (constructed VectorSourceClass nybb_source)); [|reflexivity].
      specialize (Hl eq_refl). vm_compute in Hl. discriminate Hl.
Defined.

Lemma raster_padding_discarded_witness :
  raster_padding (constructed VectorSourceClass (dict_set K_raster_padding (Some 5%Z) nybb_source))
  = 0%Z.
Proof.
  destruct (raster_padding_discarded VectorSourceClass nybb_source (Some 5%Z) world0)
    as [_ Hpad].
  apply (Hpad _ world0). vm_compute. reflexivity.
Defined.

(** C8, counterexample: a dictionary that lists the conversion
    ['raster_to_categorical_points'] and has no key ['geometry_type'] is
    resolved to neither class: [from_obj] raises [KeyError]. *)
Lemma from_obj_without_geometry_type :
  dict_has categorical_undeclared K_geometry_type = false
  /\ In {| t_name := "raster_to_categorical_points"; t_args := None |}
        (default [] (categorical_undeclared K_transforms))
  /\ from_obj categorical_undeclared world0 = (Raise (KeyError "geometry_type"), world0)
  /\ ~ (exists self w', from_obj categorical_undeclared world0 = (Ret self, w')).
Proof.
  split; [reflexivity|]. split; [left; reflexivity|]. split; [reflexivity|].
  intros (self & w' & Hrun). vm_compute in Hrun. discriminate Hrun.
Qed.

Lemma from_obj_resolves_class_witness :
  from_obj elevation_source_netcdf world0
  = __init__ RasterSourceClass elevation_source_netcdf world0
  /\ from_obj nybb_source world0 = __init__ VectorSourceClass nybb_source world0
  /\ from_obj categorical_point world0 = __init__ RasterSourceClass categorical_point world0
  /\ from_obj categorical_none world0 = __init__ RasterSourceClass categorical_none world0
  /\ from_obj untyped_source world0 = __init__ VectorSourceClass untyped_source world0
  /\ klass (constructed RasterSourceClass categorical_point) = RasterSourceClass.
Proof.
  split; [|split; [|split; [|split; [|split]]]].
  - destruct (from_obj_resolves_class elevation_source_netcdf) as [Hcls _].
    destruct (Hcls eq_refl) as [Hrun _]. apply Hrun.
  - destruct (from_obj_resolves_class nybb_source) as [Hcls _].
    destruct (Hcls eq_refl) as [Hrun _]. apply Hrun.
  - destruct (from_obj_resolves_class categorical_point) as [Hcls _].
    destruct (Hcls eq_refl) as [Hrun _]. apply Hrun.
  - destruct (from_obj_resolves_class categorical_none) as [Hcls _].
    destruct (Hcls eq_refl) as [Hrun _]. apply Hrun.
  - destruct (from_obj_resolves_class untyped_source) as [Hcls _].
    destruct (Hcls eq_refl) as [Hrun _]. apply Hrun.
  - destruct (from_obj_resolves_class categorical_point) as (_ & _ & Hklass).
    destruct (Hklass world0 world0 (constructed RasterSourceClass categorical_point))
      as (_ & Hraster & _).
    + vm_compute. reflexivity.
    + apply Hraster. right.
      exists {| t_name := "raster_to_categorical_points"; t_args := None |}.
      split; [left; reflexivity | reflexivity].
Defined.

Lemma span_check_min_max_witness :
  __init__ VectorSourceClass (dict_set K_zfield None nybb_source) world0
  = (Raise (ValueError zfield_message), world0)
  /\ (exists self, __init__ VectorSourceClass nybb_source world0 = (Ret self, world0))
  /\ (exists self,
        __init__ RasterSourceClass
          (dict_set K_span (Some (SpanName "min/max")) elevation_source_netcdf) world0
        = (Ret self, world0)).
Proof.
  split; [|split].
  - destruct (span_check_min_max VectorSourceClass (dict_set K_zfield None nybb_source)
                world0 eq_refl) as [Hraise _].
    apply Hraise; [reflexivity | discriminate].
  - destruct (span_check_min_max VectorSourceClass nybb_source world0 eq_refl)
      as [_ Hpass].
    destruct Hpass as (_ & _ & Hret & _).
    + right. discriminate.
    + apply Hret; reflexivity.
  - destruct (span_check_min_max RasterSourceClass
                (dict_set K_span (Some (SpanName "min/max")) elevation_source_netcdf)
                world0 eq_refl) as [_ Hpass].
    destruct Hpass as (_ & _ & Hret & _).
    + left. reflexivity.
    + apply Hret; reflexivity.
Defined.

Lemma full_extent_computed_witness :
  full_extent elevation_loaded None
  = (Ret (-180, -90, 180, 90)%Z, Some (-180, -90, 180, 90)%Z)
  /\ full_extent nybb_loaded None
     = (Ret (-20, -10, 20, 10)%Z, Some (-20, -10, 20, 10)%Z).
Proof.
  split.
  - destruct (full_extent_computed elevation_loaded "raster:/pkg/tests/fixtures/elevation.nc")
      as [Hraster _]; [vm_compute; reflexivity|].
    apply Hraster; reflexivity.
  - destruct (full_extent_computed nybb_loaded "vector:/data/nybb.zip|3857|sp")
      as [_ Hvector]; [vm_compute; reflexivity|].
    eapply Hvector.
    + reflexivity.
    + vm_compute. reflexivity.
    + reflexivity.
    + reflexivity.
Defined.

(** C5, counterexample: a source constructed around an in-memory frame and not
    yet loaded answers the request for its extent; nothing is raised. *)
Lemma full_extent_of_unloaded_source :
  is_loaded (constructed VectorSourceClass in_memory_source) = false
  /\ full_extent (constructed VectorSourceClass in_memory_source) None
     = (Ret (-20, -10, 20, 10)%Z, Some (-20, -10, 20, 10)%Z)
  /\ ~ (exists e, fst (full_extent (constructed VectorSourceClass in_memory_source) None)
                  = Raise e /\ exn_class e = "NotLoadedError").
Proof.
  split; [reflexivity|]. split; [reflexivity|].
  intros (e & He & _). vm_compute in He. discriminate He.
Qed.

Lemma full_extent_before_load_witness :
  is_loaded nybb_unloaded = false
  /\ exists e, full_extent nybb_unloaded None = (Raise e, None)
               /\ exn_class e = "TypeError".
Proof.
  split; [reflexivity|].
  destruct (full_extent_before_load nybb_unloaded) as [_ Hfail].
  apply Hfail. reflexivity.
Defined.

Lemma parse_sources_yields_witness :
  length (yielded (snd (parse_sources [0; 1]%nat None None catalog_two))) = (2 * 4)%nat
  /\ map described (yielded (snd (parse_sources [0; 1]%nat None (Some "nyc") catalog_two)))
     = [(Some "nyc-boroughs", "tile"); (Some "nyc-boroughs", "wms");
        (Some "nyc-boroughs", "image"); (Some "nyc-boroughs", "geojson")].
Proof.
  split.
  - destruct (parse_sources_yields [0; 1]%nat None None catalog_two
                (snd (parse_sources [0; 1]%nat None None catalog_two)))
      as (_ & Hcount & _).
    + reflexivity.
    + vm_compute. reflexivity.
    + apply (Hcount 4%nat); [reflexivity|].
      intros a [<-|[<-|[]]].
      * exists nybb_source, ["tile"; "wms"; "image"; "geojson"]. repeat split.
      * exists elevation_source_netcdf, ["tile"; "wms"; "image"; "geojson"]. repeat split.
  - destruct (parse_sources_yields [0; 1]%nat None (Some "nyc") catalog_two
                (snd (parse_sources [0; 1]%nat None (Some "nyc") catalog_two)))
      as (_ & _ & Hfilter).
    + reflexivity.
    + vm_compute. reflexivity.
    + rewrite (Hfilter "nyc" eq_refl eq_refl). vm_compute. reflexivity.
Defined.

(** C9, counterexample: a list that names one dictionary twice.  The first
    pass assigns the argument into the dictionary, the second pass builds its
    source from it: the argument reaches that source, and [load] will resolve
    its path through the directory of the configuration file. *)
Lemma config_path_reaches_aliased_source :
  elevation_source_netcdf K_config_path = None
  /\ fst (parse_sources [0; 0]%nat (Some "conf/app.yaml") None catalog_one) = Ret tt
  /\ map (fun svc => config_path (source svc))
         (yielded (snd (parse_sources [0; 0]%nat (Some "conf/app.yaml") None catalog_one)))
     = [None; None; None; None;
        Some "conf/app.yaml"; Some "conf/app.yaml"; Some "conf/app.yaml"; Some "conf/app.yaml"]
  /\ Exists (fun svc => resolve_data_path (source svc)
                        = data_path_from_config (source svc) "conf/app.yaml")
            (yielded (snd (parse_sources [0; 0]%nat (Some "conf/app.yaml") None catalog_one))).
Proof.
  split; [reflexivity|]. split; [vm_compute; reflexivity|].
  split; [vm_compute; reflexivity|].
  vm_compute. do 4 apply Exists_cons_tl. apply Exists_cons_hd. reflexivity.
Qed.

Lemma parse_sources_config_path_witness :
  Forall (fun svc => config_path (source svc) = None)
         (yielded (snd (parse_sources [0; 1]%nat (Some "conf/app.yaml") None catalog_two))).
Proof.
  destruct (parse_sources_config_path (Some "conf/app.yaml") None) as [_ Hfresh].
  eapply List.Forall_impl;
    [|apply (Hfresh [0; 1]%nat catalog_two
               (snd (parse_sources [0; 1]%nat (Some "conf/app.yaml") None catalog_two))
               (fst (parse_sources [0; 1]%nat (Some "conf/app.yaml") None catalog_two)))].
  - intros svc (a & obj & Hin & Hobj & Hcfg & _). rewrite Hcfg.
    destruct Hin as [<-|[<-|[]]]; vm_compute in Hobj; inversion Hobj; reflexivity.
  - repeat constructor; simpl; intuition discriminate.
  - reflexivity.
  - destruct (parse_sources _ _ _ _); reflexivity.
Defined.

Example catalog_two_well_formed :
  forall a, In a [0; 1]%nat -> well_formed_at None (heap catalog_two) a.
Proof.
  intros a [<-|[<-|[]]].
  - exists nybb_source, ["tile"; "wms"; "image"; "geojson"].
    split; [reflexivity|]. split; [reflexivity|].
    split; [repeat constructor|]. split; [discriminate|].
    intros obj' w Hagree.
    rewrite (from_obj_unfold obj' "polygon" w)
      by (rewrite Hagree by discriminate; reflexivity).
    apply init_is_ret.
    + unfold span_needs_zfield. rewrite !Hagree by discriminate. reflexivity.
    + rewrite Hagree by discriminate. reflexivity.
    + unfold eager, declares_overviews. rewrite !Hagree by discriminate. reflexivity.
  - exists elevation_source_netcdf, ["tile"; "wms"; "image"; "geojson"].
    split; [reflexivity|]. split; [reflexivity|].
    split; [repeat constructor|]. split; [discriminate|].
    intros obj' w Hagree.
    rewrite (from_obj_unfold obj' "raster" w)
      by (rewrite Hagree by discriminate; reflexivity).
    apply init_is_ret.
    + unfold span_needs_zfield. rewrite !Hagree by discriminate. reflexivity.
    + rewrite Hagree by discriminate. reflexivity.
    + unfold eager, declares_overviews. rewrite !Hagree by discriminate. reflexivity.
Qed.

Example catalog_two_completes (cfg : option string) :
  fst (parse_sources [0; 1]%nat cfg None catalog_two) = Ret tt.
Proof. apply parse_sources_completes. exact catalog_two_well_formed. Qed.

(** ** The further properties at concrete inputs *)

#[local] Existing Instance demo_printing.

Lemma config_path_resolution_witness :
  resolve_data_path nybb_configured world0
  = (Ret "/srv/conf/app.yaml/../data/nybb.zip", world0)
  /\ (exists e, resolve_data_path (H0 := strict_externals) nybb_configured world0
                = (Raise e, world0)
                /\ exn_class e = "FileNotFoundError").
Proof.
  split.
  - destruct (config_path_resolution (H0 := demo_externals) nybb_configured
                "conf/app.yaml" world0 eq_refl eq_refl) as (Hok & _ & _).
    apply (Hok eq_refl eq_refl "data/nybb.zip" eq_refl).
  - destruct (config_path_resolution (H0 := strict_externals) nybb_configured
                "conf/app.yaml" world0 eq_refl eq_refl) as (_ & _ & Hmissing).
    apply Hmissing. reflexivity.
Defined.

Lemma load_restores_cwd_witness :
  cwd (snd (snd (load (nybb_configured, world0)))) = "/srv"
  /\ cwd (snd (snd (load (H0 := strict_externals) (nybb_missing, world0)))) = "/srv".
Proof.
  split.
  - apply (load_restores_cwd (H0 := demo_externals) nybb_configured world0). reflexivity.
  - apply (load_restores_cwd (H0 := strict_externals) nybb_missing world0). reflexivity.
Defined.

Lemma load_early_failure_witness :
  load (H0 := strict_externals) (cities_nope, world0)
  = (Raise (KeyError "nope"), (cities_nope, world0))
  /\ load (H0 := strict_externals) (nybb_missing, world0)
     = (Raise (OSError "No such file: /data/missing.shp"),
        (nybb_missing,
         printed ["Using Given Filepath unmodified: config{self.config_file}"] world0)).
Proof.
  split.
  - destruct (load_early_failure (H0 := strict_externals) cities_nope world0
                (KeyError "nope") eq_refl) as [Hfields _].
    apply (Hfields ["nope"]).
    + discriminate.
    + reflexivity.
    + discriminate.
    + reflexivity.
  - destruct (load_early_failure (H0 := strict_externals) nybb_missing world0
                (OSError "No such file: /data/missing.shp") eq_refl) as [_ Hfile].
    eapply (Hfile "/data/missing.shp").
    + reflexivity.
    + vm_compute. reflexivity.
    + reflexivity.
    + reflexivity.
Defined.

Lemma unresolved_step_stops_pipeline_witness :
  for_each [sp_step; unknown_step; overviews_step] apply_transform (two_levels, world0)
  = (Raise (KeyError "no_such_transform"),
     (set_overviews (PDict [(LevelStr "0", PObj "a@0|sp"); (LevelStr "1", PObj "a@1|sp")])
        (set_data (PObj "a|sp") two_levels),
      printed [applying_line unknown_step] (printed [applying_line sp_step] world0))).
Proof.
  apply (unresolved_step_stops_pipeline (H0 := demo_externals)
           [sp_step] [overviews_step] unknown_step (two_levels, world0)).
  - vm_compute. reflexivity.
  - reflexivity.
Defined.

Lemma data_step_partial_failure_witness :
  apply_transform (H0 := strict_externals) sp_step (two_levels, world0)
  = (Raise (ValueError "cannot convert a@1"),
     (set_overviews (PDict [(LevelStr "0", PObj "a@0|sp"); (LevelStr "1", PObj "a@1")])
        (set_data (PObj "a|sp") two_levels),
      printed [applying_line sp_step] world0)).
Proof.
  eapply (data_step_partial_failure (H0 := strict_externals) sp_step (picky "|sp" "@1")
            two_levels world0 _ _ (LevelStr "1") [_] [_] []).
  - reflexivity.
  - reflexivity.
  - reflexivity.
  - reflexivity.
  - simpl. repeat constructor; simpl; intuition discriminate.
  - repeat constructor.
  - reflexivity.
Defined.

Lemma pipeline_keeps_levels_witness :
  exists m',
    overviews (fst (snd (for_each [reproject_step; sp_step] apply_transform
                           (two_levels, world0)))) = PDict m'
    /\ map fst m' = [LevelStr "0"; LevelStr "1"].
Proof.
  assert (Hsteps : Forall data_step [reproject_step; sp_step]) by (repeat constructor).
  destruct (pipeline_keeps_levels (H0 := demo_externals) [reproject_step; sp_step] Hsteps
               two_levels
               (fst (snd (for_each [reproject_step; sp_step] apply_transform
                            (two_levels, world0))))
               world0
               (snd (snd (for_each [reproject_step; sp_step] apply_transform
                            (two_levels, world0))))
               (match overviews two_levels with PDict m => m | _ => [] end))
    as (m' & Hov & Hkeys).
  - reflexivity.
  - simpl. repeat constructor; simpl; intuition discriminate.
  - vm_compute. reflexivity.
  - exists m'. split; [exact Hov | exact Hkeys].
Defined.

Lemma builder_ignores_overviews_witness :
  apply_transform overviews_step (two_levels, world0)
  = apply_transform overviews_step (no_levels, world0).
Proof.
  destruct (builder_ignores_overviews (H0 := demo_externals) overviews_step
              no_levels world0 (overviews two_levels) eq_refl)
    as [_ Hsame].
  apply Hsame. vm_compute. reflexivity.
Defined.


Lemma full_extent_memoized_once_witness :
  full_extent (set_data PNone elevation_loaded) (snd (full_extent elevation_loaded None))
  = (Ret (-180, -90, 180, 90)%Z, Some (-180, -90, 180, 90)%Z).
Proof.
  destruct (full_extent_memoized_once (H0 := demo_externals) elevation_loaded
              (Ret (-180, -90, 180, 90)%Z) (Some (-180, -90, 180, 90)%Z))
    as [_ Hlater].
  - vm_compute. reflexivity.
  - apply Hlater.
Defined.

Lemma source_built_despite_filter_witness :
  world (snd (parse_source None (Some "nyc") 0%nat catalog_countries))
  = snd (from_obj countries_source world0).
Proof.
  apply (source_built_despite_filter (H0 := demo_externals) None (Some "nyc") 0%nat
           catalog_countries
           (snd (parse_source None (Some "nyc") 0%nat catalog_countries))
           (fst (parse_source None (Some "nyc") 0%nat catalog_countries))
           countries_source).
  - reflexivity.
  - destruct (parse_source _ _ _ _); reflexivity.
Defined.

Lemma catalog_pass_errors_witness :
  parse_source None None 0%nat (catalog0 [(0%nat, categorical_undeclared)])
  = (Raise (KeyError "geometry_type"), catalog0 [(0%nat, categorical_undeclared)])
  /\ fst (parse_service None None 0%nat nybb_unloaded "wmts" catalog_two)
     = Raise (KeyError "wmts").
Proof.
  split.
  - destruct (catalog_pass_errors (H0 := demo_externals) None None 0%nat
                (catalog0 [(0%nat, categorical_undeclared)])
                categorical_undeclared eq_refl) as (Hgeom & _).
    apply Hgeom. reflexivity.
  - destruct (catalog_pass_errors (H0 := demo_externals) None None 0%nat catalog_two
                nybb_source eq_refl) as (_ & _ & Htype & _).
    rewrite (Htype nybb_unloaded "wmts"); [reflexivity|reflexivity|discriminate|reflexivity].
Defined.

Lemma parse_sources_assigns_config_path_witness :
  exists obj' : SourceDict,
    heap (snd (parse_sources [0; 1]%nat (Some "conf/app.yaml") None catalog_two)) !! 0%nat
    = Some obj'
    /\ dict_has obj' K_config_path = true
    /\ obj' K_config_path = Some "conf/app.yaml"
    /\ obj' K_key = Some "nyc-boroughs".
Proof.
  pose proof (catalog_two_completes (Some "conf/app.yaml")) as Hret.
  destruct (parse_sources [0; 1]%nat (Some "conf/app.yaml") None catalog_two)
    as [r c'] eqn:Hrun.
  simpl in Hret. subst r.
  destruct (parse_sources_assigns_config_path (H0 := demo_externals)
              (Some "conf/app.yaml") None [0; 1]%nat catalog_two c' Hrun)
    as [Hset Hkeep].
  destruct (Hset 0%nat nybb_source ["tile"; "wms"; "image"; "geojson"])
    as (obj' & Hobj & Hhas & Hcfg).
  - left. reflexivity.
  - reflexivity.
  - reflexivity.
  - discriminate.
  - exists obj'. split; [exact Hobj|]. split; [exact Hhas|]. split; [exact Hcfg|].
    destruct (Hkeep 0%nat nybb_source eq_refl) as (obj2 & Hobj2 & Hrest).
    simpl in Hobj, Hobj2. rewrite Hobj in Hobj2. inversion Hobj2; subst obj2.
    rewrite Hrest by discriminate. reflexivity.
Defined.

Lemma yielded_is_prefix_witness :
  fst (parse_sources [0; 1]%nat None None catalog_wmts) = Raise (KeyError "wmts")
  /\ (exists tl,
        flat_map (expected None (heap catalog_wmts)) [0; 1]%nat
        = map described (yielded (snd (parse_sources [0; 1]%nat None None catalog_wmts)))
          ++ tl)
  /\ length (yielded (snd (parse_sources [0; 1]%nat None None catalog_wmts))) <= 7.
Proof.
  split; [vm_compute; reflexivity|].
  apply (yielded_is_prefix (H0 := demo_externals) None None [0; 1]%nat catalog_wmts
           (snd (parse_sources [0; 1]%nat None None catalog_wmts))
           (fst (parse_sources [0; 1]%nat None None catalog_wmts))).
  - reflexivity.
  - destruct (parse_sources _ _ _ _); reflexivity.
Defined.

Lemma service_key_inj_witness :
  format (key (source (nybb_service WMSService)))
  = format (key (source (unloaded_service WMSService)))
  /\ service_class (nybb_service WMSService) = service_class (unloaded_service WMSService).
Proof.
  apply service_key_inj. vm_compute. reflexivity.
Defined.

Lemma route_templates_witness :
  Forall (fun p => str_contains p (service_url (nybb_service TileService)) = true)
         ["<z>"; "<x>"; "<y>"]
  /\ String.prefix "/nyc-boroughs-image" (service_url (nybb_service ImageService)) = true.
Proof.
  split.
  - destruct (route_templates (nybb_service TileService))
      as (_ & _ & Htile & _).
    destruct (Htile eq_refl) as [Hserver _]. exact Hserver.
  - destruct (route_templates (nybb_service ImageService))
      as (Hpage & _).
    exact Hpage.
Defined.

Lemma default_url_defined_witness :
  default_url (short_extent_service WMSService)
  = Raise (IndexError "list index out of range")
  /\ is_ret (default_url (short_extent_service TileService)) = true
  /\ is_ret (default_url (unloaded_service ImageService)) = true.
Proof.
  split; [|split].
  - destruct (default_url_defined (short_extent_service WMSService))
      as (_ & Hbox & _).
    destruct (Hbox (or_intror eq_refl)) as [_ Hfail].
    apply Hfail. vm_compute. reflexivity.
  - destruct (default_url_defined (short_extent_service TileService))
      as (Hplain & _).
    apply Hplain. left. reflexivity.
  - destruct (default_url_defined (unloaded_service ImageService))
      as (_ & _ & Hinit).
    apply (Hinit VectorSourceClass nybb_source world0 world0).
    + reflexivity.
    + vm_compute. reflexivity.
Defined.

Lemma base_class_needs_data_witness :
  load (constructed MapSourceClass nybb_source, world0)
  = (Raise NotImplementedError,
     (constructed MapSourceClass nybb_source,
      printed ["Using Given Filepath unmodified: config{self.config_file}"] world0)).
Proof.
  destruct (base_class_needs_data (H0 := demo_externals)
              (constructed MapSourceClass nybb_source) world0 eq_refl eq_refl eq_refl)
    as (_ & _ & Hresolved).
  apply (Hresolved "/data/nybb.zip"). vm_compute. reflexivity.
Defined.

End Concrete.
